(** * S3 paths of [gmu/s3]: [Path], [Join], [Append], [ToURI], [FromURI]

    The Go code of [gmu/s3/s3.go] works on Go strings (byte sequences) through
    three packages of the Go standard library: [strings] ([Trim]), [path]
    ([Join], [Clean]) and [net/url] ([Parse], [URL.String]).  A Go string is
    modelled by [string], a byte by [ascii].  The library functions are
    embedded after their Go sources (release 1.21), loop by loop, the
    functions of [s3.go] after the repository. *)

From stdpp Require Import gmap strings.
From Stdlib Require Import Bool Arith List Ascii String Lia.
Import ListNotations.

Local Open Scope string_scope.
Local Open Scope bool_scope.

(** stdpp stops [simpl] from unfolding [String.append]; the proofs below use
    the behaviour of the Standard Library. *)
Arguments String.append : simpl nomatch.

(** ** Bytes *)

Definition byte_le (a b : ascii) : bool := Nat.leb (nat_of_ascii a) (nat_of_ascii b).
Definition byte_lt (a b : ascii) : bool := Nat.ltb (nat_of_ascii a) (nat_of_ascii b).

(** [lo <= c && c <= hi] *)
Definition in_range (lo hi c : ascii) : bool := byte_le lo c && byte_le c hi.

(** [c] is one of the bytes of [set] *)
Fixpoint byte_in (c : ascii) (set : string) : bool :=
  match set with
  | EmptyString => false
  | String a set' => Ascii.eqb c a || byte_in c set'
  end.

(** ** Package [strings] *)

Module GoStrings.

(** [for len(s) > 0 && s[0] == c { s = s[1:] }] *)
Fixpoint trimLeftByte (s : string) (c : ascii) : string :=
  match s with
  | EmptyString => EmptyString
  | String a s' => if Ascii.eqb a c then trimLeftByte s' c else s
  end.

(** [for len(s) > 0 && s[len(s)-1] == c { s = s[:len(s)-1] }]: the bytes of
    [s] up to its last byte other than [c]. *)
Fixpoint trimRightByte (s : string) (c : ascii) : string :=
  match s with
  | EmptyString => EmptyString
  | String a s' =>
      match trimRightByte s' c with
      | EmptyString => if Ascii.eqb a c then EmptyString else String a EmptyString
      | t => String a t
      end
  end.

(** [strings.Trim(s, cutset)] where [cutset] is the one ASCII byte [c], the
    only way [s3.go] calls it: [trimLeftByte(trimRightByte(s, c), c)]. *)
Definition Trim (s : string) (c : ascii) : string :=
  match s with
  | EmptyString => s
  | _ => trimLeftByte (trimRightByte s c) c
  end.

(** [strings.HasPrefix] *)
Fixpoint HasPrefix (s prefix : string) {struct prefix} : bool :=
  match prefix with
  | EmptyString => true
  | String a prefix' =>
      match s with
      | EmptyString => false
      | String b s' => Ascii.eqb b a && HasPrefix s' prefix'
      end
  end.

(** [strings.Contains(s, string(c))] for a single byte *)
Definition ContainsByte (s : string) (c : ascii) : bool := byte_in c s.

(** [strings.Count(s, string(c))] for a single byte *)
Fixpoint CountByte (s : string) (c : ascii) : nat :=
  match s with
  | EmptyString => 0
  | String a s' => (if Ascii.eqb a c then 1 else 0) + CountByte s' c
  end.

(** [strings.Cut(s, string(c))] for a single byte: the text before the first
    [c], the text after it, and whether [c] was found. *)
Fixpoint CutByte (s : string) (c : ascii) : string * string * bool :=
  match s with
  | EmptyString => (EmptyString, EmptyString, false)
  | String a s' =>
      if Ascii.eqb a c then (EmptyString, s', true)
      else let '(before, after, found) := CutByte s' c in
           (String a before, after, found)
  end.

(** [strings.LastIndex(s, string(c))] for a single byte, [None] for [-1] *)
Fixpoint LastIndexByte (s : string) (c : ascii) : option nat :=
  match s with
  | EmptyString => None
  | String a s' =>
      match LastIndexByte s' c with
      | Some i => Some (S i)
      | None => if Ascii.eqb a c then Some 0 else None
      end
  end.

(** [strings.HasSuffix(s, string(c))] for a single byte *)
Fixpoint HasSuffixByte (s : string) (c : ascii) : bool :=
  match s with
  | EmptyString => false
  | String a EmptyString => Ascii.eqb a c
  | String _ s' => HasSuffixByte s' c
  end.

(** [strings.Index(s, sub)], [None] for [-1] *)
Fixpoint Index (s sub : string) : option nat :=
  if HasPrefix s sub then Some 0
  else match s with
       | EmptyString => None
       | String _ s' => option_map S (Index s' sub)
       end.

(** [strings.ToLower] on the ASCII letters; other bytes are kept. *)
Definition lower_byte (c : ascii) : ascii :=
  if in_range "A" "Z" c then ascii_of_nat (nat_of_ascii c + 32) else c.

Fixpoint ToLowerASCII (s : string) : string :=
  match s with
  | EmptyString => EmptyString
  | String a s' => String (lower_byte a) (ToLowerASCII s')
  end.

End GoStrings.

(** Slices [s[i:]] and [s[:i]] *)
Fixpoint drop (i : nat) (s : string) : string :=
  match i, s with
  | 0, _ => s
  | S i', String _ s' => drop i' s'
  | S _, EmptyString => EmptyString
  end.

Fixpoint take (i : nat) (s : string) : string :=
  match i, s with
  | 0, _ => EmptyString
  | S i', String a s' => String a (take i' s')
  | S _, EmptyString => EmptyString
  end.

(** ** Package [path] *)

Module GoPath.

(** The four cases of the [switch] in the loop of [Clean], decided on
    [path[r]] and the one or two bytes after it. *)
Inductive element := EmptyElem | DotElem | DotDotElem | RealElem.

(** [r == n || path[r] == '/'] on the rest of the path from [r] *)
Definition at_end_or_sep (rest : string) : bool :=
  match rest with
  | EmptyString => true
  | String c _ => Ascii.eqb c "/"
  end.

Definition classify (c : ascii) (rest : string) : element :=
  if Ascii.eqb c "/" then EmptyElem
  else if Ascii.eqb c "." && at_end_or_sep rest then DotElem
  else if Ascii.eqb c "." &&
          match rest with
          | String c1 rest2 => Ascii.eqb c1 "." && at_end_or_sep rest2
          | EmptyString => false
          end
       then DotDotElem
  else RealElem.

(** The output [lazybuf] is the sequence of bytes written so far; it is kept
    LAST BYTE FIRST, so that [out.append(c)] is [c :: out], [out.w] is
    [length out] and [out.w--] drops the head.

    [backtrack dotdot b out]: the loop
    [for out.w > dotdot && out.index(out.w) != '/' { out.w-- }],
    where [b] is the byte [out.index(out.w)] just above the kept bytes. *)
Fixpoint backtrack (dotdot : nat) (b : ascii) (out : list ascii) : list ascii :=
  match out with
  | [] => []
  | b' :: out' =>
      if (dotdot <? List.length out)%nat && negb (Ascii.eqb b "/")
      then backtrack dotdot b' out'
      else out
  end.

(** The [..] case: back over the last element when there is one above
    [dotdot], else (when not rooted) write [..] and move [dotdot] there. *)
Definition dotdot_step (rooted : bool) (out : list ascii) (dotdot : nat)
  : list ascii * nat :=
  if (dotdot <? List.length out)%nat then
    match out with
    | b :: out' => (backtrack dotdot b out', dotdot)
    | [] => (out, dotdot)
    end
  else if negb rooted then
    let out1 := if (0 <? List.length out)%nat then "/"%char :: out else out in
    let out2 := "."%char :: "."%char :: out1 in
    (out2, List.length out2)
  else (out, dotdot).

(** [if rooted && out.w != 1 || !rooted && out.w != 0 { out.append('/') }] *)
Definition add_slash (rooted : bool) (out : list ascii) : list ascii :=
  if (rooted && negb (List.length out =? 1)%nat) || (negb rooted && negb (List.length out =? 0)%nat)
  then "/"%char :: out else out.

(** The loop [for r < n] of [Clean] on [path[r:]], from the state
    [(out, dotdot)] to the state at [r == n]. *)
Fixpoint clean_loop (rooted : bool) (path : string) (out : list ascii)
    (dotdot : nat) {struct path} : list ascii * nat :=
  match path with
  | EmptyString => (out, dotdot)
  | String c rest =>
      match classify c rest with
      | EmptyElem => clean_loop rooted rest out dotdot
      | DotElem => clean_loop rooted rest out dotdot
      | DotDotElem =>
          match rest with
          | String _ rest2 =>
              let '(out', dotdot') := dotdot_step rooted out dotdot in
              clean_loop rooted rest2 out' dotdot'
          | EmptyString => (out, dotdot)
          end
      | RealElem =>
          (fix copy (p : string) (o : list ascii) {struct p} : list ascii * nat :=
             match p with
             | EmptyString => (o, dotdot)
             | String d p' =>
                 if Ascii.eqb d "/" then clean_loop rooted p o dotdot
                 else copy p' (d :: o)
             end) rest (c :: add_slash rooted out)
      end
  end.

(** The inner loop [for ; r < n && path[r] != '/'; r++ { out.append(path[r]) }]
    followed by the rest of the outer loop, as [clean_loop] runs it in its
    last case. *)
Definition copy_elem (rooted : bool) (dotdot : nat)
  : string -> list ascii -> list ascii * nat :=
  fix copy (p : string) (o : list ascii) {struct p} : list ascii * nat :=
    match p with
    | EmptyString => (o, dotdot)
    | String d p' =>
        if Ascii.eqb d "/" then clean_loop rooted p o dotdot
        else copy p' (d :: o)
    end.

(** [clean_loop] as a function from loop state to loop state *)
Definition run (rooted : bool) (path : string) (st : list ascii * nat)
  : list ascii * nat :=
  clean_loop rooted path (fst st) (snd st).

Definition Clean (path : string) : string :=
  match path with
  | EmptyString => "."
  | String c rest =>
      let rooted := Ascii.eqb c "/" in
      let '(out, _) :=
        if rooted then clean_loop rooted rest ["/"%char] 1
        else clean_loop rooted path [] 0 in
      match out with
      | [] => "."
      | _ => string_of_list_ascii (rev out)
      end
  end.

(** The buffer of [Join]: the elements from the first non-empty one on,
    separated by ['/']. *)
Fixpoint join_buf (buf : string) (elem : list string) : string :=
  match elem with
  | [] => buf
  | e :: elem' =>
      match buf, e with
      | EmptyString, EmptyString => join_buf buf elem'
      | EmptyString, _ => join_buf e elem'
      | _, _ => join_buf (buf ++ String "/" e) elem'
      end
  end.

Definition Join (elem : list string) : string :=
  if (fold_left (fun n e => n + String.length e) elem 0 =? 0)%nat then EmptyString
  else Clean (join_buf EmptyString elem).

End GoPath.

(** ** Package [net/url] *)

Module NetURL.

Inductive encoding :=
| encodePath | encodePathSegment | encodeHost | encodeZone
| encodeUserPassword | encodeQueryComponent | encodeFragment.

Definition is_host_mode (mode : encoding) : bool :=
  match mode with encodeHost | encodeZone => true | _ => false end.

(** The errors [parse] and its helpers build: [errors.New(msg)],
    [EscapeError(s)], [InvalidHostError(s)] and
    [fmt.Errorf("invalid port %q after host", colonPort)]. *)
Inductive parse_error :=
| ErrorString (msg : string)
| EscapeError (s : string)
| InvalidHostError (s : string)
| InvalidPort (colonPort : string).

(** [url.Error{Op, URL, Err}] *)
Record Error := mkError { Op : string; ErrURL : string; Err : parse_error }.

Record Userinfo := mkUserinfo
  { username : string; password : string; passwordSet : bool }.

Record URL := mkURL
  { Scheme : string;
    Opaque : string;
    User : option Userinfo;
    Host : string;
    Path : string;
    RawPath : string;
    OmitHost : bool;
    ForceQuery : bool;
    RawQuery : string;
    Fragment : string;
    RawFragment : string }.

(** [new(URL)] *)
Definition zeroURL : URL :=
  mkURL EmptyString EmptyString None EmptyString EmptyString EmptyString
        false false EmptyString EmptyString EmptyString.

Definition set_Path (u : URL) (p : string) : URL :=
  mkURL (Scheme u) (Opaque u) (User u) (Host u) p (RawPath u)
        (OmitHost u) (ForceQuery u) (RawQuery u) (Fragment u) (RawFragment u).

Definition is_alnum (c : ascii) : bool :=
  in_range "a" "z" c || in_range "A" "Z" c || in_range "0" "9" c.

Definition ishex (c : ascii) : bool :=
  in_range "0" "9" c || in_range "a" "f" c || in_range "A" "F" c.

Definition unhex (c : ascii) : nat :=
  if in_range "0" "9" c then nat_of_ascii c - nat_of_ascii "0"
  else if in_range "a" "f" c then nat_of_ascii c - nat_of_ascii "a" + 10
  else if in_range "A" "F" c then nat_of_ascii c - nat_of_ascii "A" + 10
  else 0.

(** [unhex(h1)<<4 | unhex(h2)] *)
Definition unhex2 (h1 h2 : ascii) : ascii := ascii_of_nat (16 * unhex h1 + unhex h2).

(** [upperhex[i]] for [i < 16] *)
Definition upperhex (i : nat) : ascii :=
  match String.get i "0123456789ABCDEF" with
  | Some d => d
  | None => "0"%char
  end.

Definition shouldEscape (c : ascii) (mode : encoding) : bool :=
  if is_alnum c then false
  else if is_host_mode mode &&
          (byte_in c "!$&'()*+,;=:[]<>" || Ascii.eqb c (ascii_of_nat 34))
       then false
  else if byte_in c "-_.~" then false
  else if byte_in c "$&+,/:;=?@" &&
          match mode with
          | encodePath | encodePathSegment | encodeUserPassword
          | encodeQueryComponent | encodeFragment => true
          | _ => false
          end
       then
         match mode with
         | encodePath => Ascii.eqb c "?"
         | encodePathSegment => byte_in c "/;,?"
         | encodeUserPassword => byte_in c "@/?:"
         | encodeQueryComponent => true
         | _ => false
         end
  else if match mode with encodeFragment => byte_in c "!()*" | _ => false end
       then false
  else true.

Definition mode_is_query (mode : encoding) : bool :=
  match mode with encodeQueryComponent => true | _ => false end.

(** First loop of [escape]: [(spaceCount, hexCount)] *)
Fixpoint escape_count (s : string) (mode : encoding) : nat * nat :=
  match s with
  | EmptyString => (0, 0)
  | String c s' =>
      let '(spaceCount, hexCount) := escape_count s' mode in
      if shouldEscape c mode then
        if Ascii.eqb c " " && mode_is_query mode then (S spaceCount, hexCount)
        else (spaceCount, S hexCount)
      else (spaceCount, hexCount)
  end.

(** Second loop of [escape]: the bytes written to [t] *)
Fixpoint escape_build (s : string) (mode : encoding) : string :=
  match s with
  | EmptyString => EmptyString
  | String c s' =>
      if Ascii.eqb c " " && mode_is_query mode then
        String "+" (escape_build s' mode)
      else if shouldEscape c mode then
        String "%" (String (upperhex (nat_of_ascii c / 16))
                   (String (upperhex (nat_of_ascii c mod 16))
                           (escape_build s' mode)))
      else String c (escape_build s' mode)
  end.

Definition escape (s : string) (mode : encoding) : string :=
  match escape_count s mode with
  | (0, 0) => s
  | _ => escape_build s mode
  end.

(** First loop of [unescape]: the error, or [(n, hasPlus)] *)
Fixpoint unescape_scan (s : string) (mode : encoding) (n : nat) (hasPlus : bool)
  : parse_error + nat * bool :=
  match s with
  | EmptyString => inr (n, hasPlus)
  | String c s1 =>
      if Ascii.eqb c "%" then
        match s1 with
        | String h1 (String h2 s3) =>
            if negb (ishex h1) || negb (ishex h2) then inl (EscapeError (take 3 s))
            else if match mode with encodeHost => true | _ => false end &&
                    (unhex h1 <? 8)%nat && negb (String.eqb (take 3 s) "%25")
                 then inl (EscapeError (take 3 s))
            else if match mode with encodeZone => true | _ => false end &&
                    negb (String.eqb (take 3 s) "%25") &&
                    negb (Ascii.eqb (unhex2 h1 h2) " ") &&
                    shouldEscape (unhex2 h1 h2) encodeHost
                 then inl (EscapeError (take 3 s))
            else unescape_scan s3 mode (S n) hasPlus
        | _ => inl (EscapeError (take 3 s))
        end
      else if Ascii.eqb c "+" then
        unescape_scan s1 mode n (mode_is_query mode)
      else if is_host_mode mode && byte_lt c (ascii_of_nat 128) &&
              shouldEscape c encodeHost
           then inl (InvalidHostError (String c EmptyString))
      else unescape_scan s1 mode n hasPlus
  end.

(** Second loop of [unescape], on a string the first loop accepted *)
Fixpoint unescape_build (s : string) (mode : encoding) : string :=
  match s with
  | EmptyString => EmptyString
  | String c s1 =>
      if Ascii.eqb c "%" then
        match s1 with
        | String h1 (String h2 s3) => String (unhex2 h1 h2) (unescape_build s3 mode)
        | _ => EmptyString
        end
      else if Ascii.eqb c "+" then
        String (if mode_is_query mode then " "%char else "+"%char)
               (unescape_build s1 mode)
      else String c (unescape_build s1 mode)
  end.

Definition unescape (s : string) (mode : encoding) : parse_error + string :=
  match unescape_scan s mode 0 false with
  | inl e => inl e
  | inr (0, false) => inr s
  | inr _ => inr (unescape_build s mode)
  end.

Fixpoint validEncoded (s : string) (mode : encoding) : bool :=
  match s with
  | EmptyString => true
  | String c s' =>
      (byte_in c "!$&'()*+,;=:@[]%" || negb (shouldEscape c mode))
      && validEncoded s' mode
  end.

Fixpoint stringContainsCTLByte (s : string) : bool :=
  match s with
  | EmptyString => false
  | String b s' =>
      byte_lt b " " || Ascii.eqb b (ascii_of_nat 127) || stringContainsCTLByte s'
  end.

(** The loop of [getScheme] at index [i], [rest] being [rawURL[i:]] *)
Fixpoint getScheme_from (rawURL : string) (i : nat) (rest : string)
  : parse_error + string * string :=
  match rest with
  | EmptyString => inr (EmptyString, rawURL)
  | String c rest' =>
      if in_range "a" "z" c || in_range "A" "Z" c then
        getScheme_from rawURL (S i) rest'
      else if in_range "0" "9" c || byte_in c "+-." then
        if (i =? 0)%nat then inr (EmptyString, rawURL)
        else getScheme_from rawURL (S i) rest'
      else if Ascii.eqb c ":" then
        if (i =? 0)%nat then inl (ErrorString "missing protocol scheme")
        else inr (take i rawURL, rest')
      else inr (EmptyString, rawURL)
  end.

Definition getScheme (rawURL : string) : parse_error + string * string :=
  getScheme_from rawURL 0 rawURL.

Fixpoint all_digits (s : string) : bool :=
  match s with
  | EmptyString => true
  | String b s' => negb (byte_lt b "0") && negb (byte_lt "9" b) && all_digits s'
  end.

Definition validOptionalPort (port : string) : bool :=
  match port with
  | EmptyString => true
  | String c digits => Ascii.eqb c ":" && all_digits digits
  end.

Fixpoint validUserinfo (s : string) : bool :=
  match s with
  | EmptyString => true
  | String r s' =>
      (in_range "A" "Z" r || in_range "a" "z" r || in_range "0" "9" r ||
       byte_in r "-._:~!$&'()*+,;=%@")
      && validUserinfo s'
  end.

Definition parseHost (host : string) : parse_error + string :=
  let plain := unescape host encodeHost in
  if GoStrings.HasPrefix host "[" then
    match GoStrings.LastIndexByte host "]" with
    | None => inl (ErrorString "missing ']' in host")
    | Some i =>
        let colonPort := drop (i + 1) host in
        if negb (validOptionalPort colonPort) then inl (InvalidPort colonPort)
        else
          match GoStrings.Index (take i host) "%25" with
          | Some zone =>
              match unescape (take zone host) encodeHost with
              | inl e => inl e
              | inr host1 =>
                  match unescape (drop zone (take i host)) encodeZone with
                  | inl e => inl e
                  | inr host2 =>
                      match unescape (drop i host) encodeHost with
                      | inl e => inl e
                      | inr host3 => inr (host1 ++ host2 ++ host3)
                      end
                  end
              end
          | None => plain
          end
    end
  else
    match GoStrings.LastIndexByte host ":" with
    | Some i =>
        let colonPort := drop i host in
        if negb (validOptionalPort colonPort) then inl (InvalidPort colonPort)
        else plain
    | None => plain
    end.

Definition parseAuthority (authority : string)
  : parse_error + option Userinfo * string :=
  match GoStrings.LastIndexByte authority "@" with
  | None =>
      match parseHost authority with
      | inl e => inl e
      | inr host => inr (None, host)
      end
  | Some i =>
      match parseHost (drop (i + 1) authority) with
      | inl e => inl e
      | inr host =>
          let userinfo := take i authority in
          if negb (validUserinfo userinfo) then
            inl (ErrorString "net/url: invalid userinfo")
          else if negb (GoStrings.ContainsByte userinfo ":") then
            match unescape userinfo encodeUserPassword with
            | inl e => inl e
            | inr name => inr (Some (mkUserinfo name EmptyString false), host)
            end
          else
            let '(name, pass, _) := GoStrings.CutByte userinfo ":" in
            match unescape name encodeUserPassword with
            | inl e => inl e
            | inr name' =>
                match unescape pass encodeUserPassword with
                | inl e => inl e
                | inr pass' => inr (Some (mkUserinfo name' pass' true), host)
                end
            end
      end
  end.

(** [u.setPath(p)]: the new [(Path, RawPath)] *)
Definition setPath (p : string) : parse_error + string * string :=
  match unescape p encodePath with
  | inl e => inl e
  | inr path =>
      if String.eqb p (escape path encodePath) then inr (path, EmptyString)
      else inr (path, p)
  end.

(** [u.setFragment(f)]: the new [(Fragment, RawFragment)] *)
Definition setFragment (f : string) : parse_error + string * string :=
  match unescape f encodeFragment with
  | inl e => inl e
  | inr frag =>
      if String.eqb f (escape frag encodeFragment) then inr (frag, EmptyString)
      else inr (frag, f)
  end.

Definition nonempty (s : string) : bool := negb (String.eqb s EmptyString).

(** The block of [parse] that cuts the query off [rest]: the new [rest],
    [url.ForceQuery] and [url.RawQuery]. *)
Definition splitQuery (rest : string) : string * bool * string :=
  if GoStrings.HasSuffixByte rest "?" && (GoStrings.CountByte rest "?" =? 1)%nat
  then (take (String.length rest - 1) rest, true, EmptyString)
  else let '(before, after, _) := GoStrings.CutByte rest "?" in
       (before, false, after).

(** The block of [parse] that reads the authority: [url.User], [url.Host],
    [url.OmitHost] and the new [rest]. *)
Definition splitAuthority (scheme : string) (viaRequest : bool) (rest : string)
  : parse_error + option Userinfo * string * bool * string :=
  if (nonempty scheme ||
      (negb viaRequest && negb (GoStrings.HasPrefix rest "///")))
     && GoStrings.HasPrefix rest "//"
  then
    let authority0 := drop 2 rest in
    let '(authority, rest2) :=
      match GoStrings.Index authority0 "/" with
      | Some i => (take i authority0, drop i authority0)
      | None => (authority0, EmptyString)
      end in
    match parseAuthority authority with
    | inl e => inl e
    | inr (user, host) => inr (user, host, false, rest2)
    end
  else if nonempty scheme && GoStrings.HasPrefix rest "/"
  then inr (None, EmptyString, true, rest)
  else inr (None, EmptyString, false, rest).

Definition parse (rawURL : string) (viaRequest : bool) : parse_error + URL :=
  if stringContainsCTLByte rawURL then
    inl (ErrorString "net/url: invalid control character in URL")
  else if String.eqb rawURL EmptyString && viaRequest then
    inl (ErrorString "empty url")
  else if String.eqb rawURL "*" then
    inr (set_Path zeroURL "*")
  else
    match getScheme rawURL with
    | inl e => inl e
    | inr (scheme0, rest0) =>
        let scheme := GoStrings.ToLowerASCII scheme0 in
        let '(rest1, forceQuery, rawQuery) := splitQuery rest0 in
        let rootless := negb (GoStrings.HasPrefix rest1 "/") in
        if rootless && nonempty scheme then
          inr (mkURL scheme rest1 None EmptyString EmptyString EmptyString
                     false forceQuery rawQuery EmptyString EmptyString)
        else if rootless && viaRequest then
          inl (ErrorString "invalid URI for request")
        else if rootless &&
                (let '(segment, _, _) := GoStrings.CutByte rest1 "/" in
                 GoStrings.ContainsByte segment ":")
        then inl (ErrorString "first path segment in URL cannot contain colon")
        else
          match splitAuthority scheme viaRequest rest1 with
          | inl e => inl e
          | inr (user, host, omitHost, rest) =>
              match setPath rest with
              | inl e => inl e
              | inr (path, rawPath) =>
                  inr (mkURL scheme EmptyString user host path rawPath
                             omitHost forceQuery rawQuery EmptyString EmptyString)
              end
          end
    end.

(** [url.Parse] *)
Definition Parse (rawURL : string) : Error + URL :=
  let '(u, frag, _) := GoStrings.CutByte rawURL "#" in
  match parse u false with
  | inl e => inl (mkError "parse" u e)
  | inr url =>
      if String.eqb frag EmptyString then inr url
      else
        match setFragment frag with
        | inl e => inl (mkError "parse" rawURL e)
        | inr (fragment, rawFragment) =>
            inr (mkURL (Scheme url) (Opaque url) (User url) (Host url) (Path url)
                       (RawPath url) (OmitHost url) (ForceQuery url)
                       (RawQuery url) fragment rawFragment)
        end
  end.

Definition EscapedPath (u : URL) : string :=
  if nonempty (RawPath u) && validEncoded (RawPath u) encodePath &&
     match unescape (RawPath u) encodePath with
     | inr p => String.eqb p (Path u)
     | inl _ => false
     end
  then RawPath u
  else if String.eqb (Path u) "*" then "*"
  else escape (Path u) encodePath.

Definition EscapedFragment (u : URL) : string :=
  if nonempty (RawFragment u) && validEncoded (RawFragment u) encodeFragment &&
     match unescape (RawFragment u) encodeFragment with
     | inr f => String.eqb f (Fragment u)
     | inl _ => false
     end
  then RawFragment u
  else escape (Fragment u) encodeFragment.

(** [Userinfo.String] *)
Definition Userinfo_String (ui : Userinfo) : string :=
  escape (username ui) encodeUserPassword ++
  (if passwordSet ui then ":" ++ escape (password ui) encodeUserPassword
   else EmptyString).

Definition is_some {A} (o : option A) : bool :=
  match o with Some _ => true | None => false end.

(** [URL.String]: the pieces written to [buf], in order *)
Definition URL_String (u : URL) : string :=
  let scheme_part :=
    if nonempty (Scheme u) then Scheme u ++ ":" else EmptyString in
  let body :=
    if nonempty (Opaque u) then Opaque u
    else
      let authority_part :=
        if nonempty (Scheme u) || nonempty (Host u) || is_some (User u) then
          if OmitHost u && negb (nonempty (Host u)) && negb (is_some (User u))
          then EmptyString
          else
            (if nonempty (Host u) || nonempty (Path u) || is_some (User u)
             then "//" else EmptyString) ++
            (match User u with
             | Some ui => Userinfo_String ui ++ "@"
             | None => EmptyString
             end) ++
            (if nonempty (Host u) then escape (Host u) encodeHost
             else EmptyString)
        else EmptyString in
      let path := EscapedPath u in
      let slash :=
        if nonempty path && negb (GoStrings.HasPrefix path "/") && nonempty (Host u)
        then "/" else EmptyString in
      let dot_slash :=
        if String.eqb (scheme_part ++ authority_part ++ slash) EmptyString &&
           (let '(segment, _, _) := GoStrings.CutByte path "/" in
            GoStrings.ContainsByte segment ":")
        then "./" else EmptyString in
      authority_part ++ slash ++ dot_slash ++ path in
  let query_part :=
    if ForceQuery u || nonempty (RawQuery u) then "?" ++ RawQuery u
    else EmptyString in
  let fragment_part :=
    if nonempty (Fragment u) then "#" ++ EscapedFragment u else EmptyString in
  scheme_part ++ body ++ query_part ++ fragment_part.

End NetURL.

(** ** Package [s3] ([gmu/s3/s3.go]) *)

Module S3.

(** A Go [error] value as [FromURI] can return it: its own [ParseError], or
    the [*url.Error] of [url.Parse]; [None] is [nil]. *)
Inductive error :=
| ParseError (uri : string)
| URLError (e : NetURL.Error).

Record Path := mkPath { Bucket : string; Key : string }.

(** [Path{}] *)
Definition zeroPath : Path := mkPath EmptyString EmptyString.

Definition Join (p : Path) : string :=
  let cleanBucket := GoStrings.Trim (Bucket p) "/" in
  let cleanKey := GoStrings.Trim (Key p) "/" in
  GoPath.Join [cleanBucket; cleanKey].

Definition Append (p : Path) (key : string) : Path :=
  mkPath (Bucket p) (GoPath.Join [Key p; key]).

(** [u, _ := url.Parse("s3://")]; the parse succeeds ([parse_s3_scheme]
    below), so [u] is never [nil]. *)
Definition ToURI (p : Path) : string :=
  match NetURL.Parse "s3://" with
  | inr u => NetURL.URL_String (NetURL.set_Path u (Join p))
  | inl _ => EmptyString
  end.

Definition FromURI (uri : string) : Path * option error :=
  match NetURL.Parse uri with
  | inl err => (zeroPath, Some (URLError err))
  | inr u =>
      if negb (String.eqb (NetURL.Scheme u) "s3") ||
         (String.length (NetURL.Host u) =? 0)%nat
      then (zeroPath, Some (ParseError uri))
      else
        let key :=
          if (String.length (NetURL.Path u) <=? 1)%nat then EmptyString
          else drop 1 (NetURL.Path u) in
        (mkPath (NetURL.Host u) key, None)
  end.

End S3.

(** ** Vocabulary of the properties *)

(** The buffer after [out.append] of every byte of [s] *)
Fixpoint rev_onto (s : string) (o : list ascii) : list ascii :=
  match s with
  | EmptyString => o
  | String c s' => rev_onto s' (c :: o)
  end.

(** No byte of [s] is the separator *)
Definition no_sep (s : string) : bool := negb (byte_in "/" s).

(** The elements of a path: the pieces between its separators *)
Fixpoint elements (s : string) : list string :=
  match s with
  | EmptyString => [EmptyString]
  | String c s' =>
      if Ascii.eqb c "/" then EmptyString :: elements s'
      else match elements s' with
           | e :: es => String c e :: es
           | [] => [String c EmptyString]
           end
  end.

(** The elements joined with single separators *)
Fixpoint join_elems (es : list string) : string :=
  match es with
  | [] => EmptyString
  | e :: es' =>
      match es' with
      | [] => e
      | _ => e ++ String "/" (join_elems es')
      end
  end.

(** [k] separators *)
Fixpoint slashes (k : nat) : string :=
  match k with
  | 0 => EmptyString
  | S k' => String "/" (slashes k')
  end.

(** An element that is written to the buffer: not empty, without separator *)
Definition solid (e : string) : bool :=
  negb (String.eqb e EmptyString) && no_sep e.

(** What one turn of the loop of [Clean] does with a whole element *)
Definition elem_step (rooted : bool) (st : list ascii * nat) (e : string)
  : list ascii * nat :=
  if String.eqb e EmptyString || String.eqb e "." then st
  else if String.eqb e ".." then GoPath.dotdot_step rooted (fst st) (snd st)
  else (rev_onto e (GoPath.add_slash rooted (fst st)), snd st).

(** The end of [Clean]: an empty buffer is [.] *)
Definition finish (st : list ascii * nat) : string :=
  match fst st with
  | [] => "."
  | out => string_of_list_ascii (rev out)
  end.

(** The loop state of [Clean] on a relative path, seen as a stack of
    elements: the buffer holds the elements [es] joined by separators, and
    [dotdot] is the length of the first [k] of them joined. *)
Definition stack_inv (es : list string) (k : nat) (st : list ascii * nat) : Prop :=
  Forall (fun e => solid e = true) es /\
  fst st = rev_onto (join_elems es) [] /\
  k <= List.length es /\
  snd st = String.length (join_elems (firstn k es)).

(** The buffer [Y] ends in an element that the [..] case removes, with the
    separator before it, leaving [R]. *)
Definition pops_to (dd : nat) (R Y : list ascii) : Prop :=
  exists b Y', Y = b :: Y' /\ b <> "/"%char /\ dd <= List.length Y' /\
               GoPath.backtrack dd b Y' = R.

(** An element that [Clean] copies as it is: not empty, not [.], not [..] *)
Definition plain (e : string) : bool :=
  negb (String.eqb e EmptyString) && negb (String.eqb e ".")
  && negb (String.eqb e "..").

(** A relative path in clean form: plain elements separated by single
    separators, none leading and none trailing. *)
Definition plain_path (s : string) : bool := forallb plain (elements s).

(** Every byte of [s] satisfies [f] *)
Fixpoint all_bytes (f : ascii -> bool) (s : string) : bool :=
  match s with
  | EmptyString => true
  | String c s' => f c && all_bytes f s'
  end.

(** A byte that [URL.String] writes unescaped in a path *)
Definition path_safe (c : ascii) : bool := negb (NetURL.shouldEscape c NetURL.encodePath).

(** A byte that is written unescaped in a path and read back unescaped as
    part of a host name: letters, digits and [-_.~$&+,;=]. *)
Definition host_safe (c : ascii) : bool :=
  path_safe c && negb (NetURL.shouldEscape c NetURL.encodeHost)
  && negb (Ascii.eqb c ":").

(** A byte that can stand in the escaped form of a path *)
Definition uri_byte (c : ascii) : bool := path_safe c || Ascii.eqb c "%".

(** The string a [Path] stands for when nothing needs cleaning *)
Definition canonical (p : S3.Path) : string :=
  match S3.Key p with
  | EmptyString => S3.Bucket p
  | key => S3.Bucket p ++ String "/" key
  end.

(** The byte is the separator *)
Definition is_sep (c : ascii) : bool := Ascii.eqb c "/".

(** The loop state of [Clean] on a rooted path: the buffer holds the root
    separator and the elements [es] joined by separators, and [dotdot]
    stays at the root. *)
Definition rooted_inv (es : list string) (st : list ascii * nat) : Prop :=
  Forall (fun e => solid e = true) es /\
  fst st = rev_onto (String "/" (join_elems es)) [] /\
  snd st = 1.

(** The stack of [Clean] on a relative path begins with [k] elements [..],
    and plain elements follow. *)
Definition shaped (es : list string) (k : nat) : Prop :=
  firstn k es = repeat ".." k /\ forallb plain (skipn k es) = true.


(** * The client

    [s3Client] forwards to the AWS SDK.  The SDK calls are parameters of the
    functions below; what is modelled is the configuration the client starts
    from, the requests it builds and what it does with the answers.  The tag
    map of [AddBucketTag] is a Go map: a [gmap] of stdpp. *)

Module Client.

(** ** Configuration: [ClientOption] and [NewClient] *)

Section Config.

Variables credentials Session S3API error : Type.

(** The fields of [aws.Config] that the client sets; a [None] is the [nil]
    of the field's pointer. *)
Record Config := mkConfig
  { Credentials : option credentials;
    DisableSSL : option bool;
    Region : option string;
    Endpoint : option string;
    S3ForcePathStyle : option bool }.

Definition ClientOption : Type := Config -> Config.

Definition defaultRegion : string := "us-west-2".

Definition WithCredentials (cred : credentials) : ClientOption :=
  fun c => mkConfig (Some cred) (DisableSSL c) (Region c) (Endpoint c)
                    (S3ForcePathStyle c).

Definition WithDisableSSL (ssl : bool) : ClientOption :=
  fun c => mkConfig (Credentials c) (Some ssl) (Region c) (Endpoint c)
                    (S3ForcePathStyle c).

Definition WithRegion (region : string) : ClientOption :=
  fun c => mkConfig (Credentials c) (DisableSSL c) (Some region) (Endpoint c)
                    (S3ForcePathStyle c).

Definition WithEndpoint (endpoint : string) : ClientOption :=
  fun c => mkConfig (Credentials c) (DisableSSL c) (Region c) (Some endpoint)
                    (S3ForcePathStyle c).

Definition WithS3ForcePathStyle (force : bool) : ClientOption :=
  fun c => mkConfig (Credentials c) (DisableSSL c) (Region c) (Endpoint c)
                    (Some force).

(** [s3Client]; the [None]s are the [nil]s of [&s3Client{}]. *)
Record s3Client := mks3Client
  { client : option S3API; session : option Session }.

(** The [config] of [NewClient] after [for _, option := range options]. *)
Definition config_of (options : list ClientOption) : Config :=
  fold_left (fun config option => option config) options
            (mkConfig None None (Some defaultRegion) None None).

Definition NewClient (NewSession : Config -> error + Session)
    (New : Session -> S3API) (options : list ClientOption)
  : s3Client * option error :=
  match NewSession (config_of options) with
  | inl err => (mks3Client None None, Some err)
  | inr sess => (mks3Client (Some (New sess)) (Some sess), None)
  end.

(** An option that leaves the region as it is *)
Definition keeps_region (option : ClientOption) : Prop :=
  forall c, Region (option c) = Region c.

End Config.

(** ** Listing and deleting under a Path *)

(** The fields of [s3.ListObjectsV2Input] and [s3.ListObjectsInput] that the
    client sets. *)
Record ListInput := mkListInput
  { Bucket : string; Prefix : string; Delimiter : string }.

(** The request of [listBase], which [List] and [ListDirectories] send. *)
Definition listBase_input (p : S3.Path) : ListInput :=
  let awsKey :=
    if String.eqb (S3.Key p) EmptyString then S3.Key p
    else String.append (S3.Key p) "/" in
  mkListInput (S3.Bucket p) awsKey "/".

(** The input of the iterator that [DeleteRecursive] deletes from. *)
Definition DeleteRecursive_input (p : S3.Path) : ListInput :=
  mkListInput (S3.Bucket p) (String.append (S3.Key p) "/") "/".

(** ** Tags of a bucket: [AddBucketTag] *)

(** An [error] of the SDK: an [awserr.Error] with its code, or another. *)
Inductive sdk_error :=
| AwsError (code message : string)
| OtherError (message : string).

(** [s3.Tag]; [Key] and [Value] are [*string]. *)
Record Tag := mkTag { Key : option string; Value : option string }.

(** [_, ok := tags[k]]; reading a [nil] map finds nothing. *)
Definition has_key (tags : option (gmap string string)) (k : string) : bool :=
  match tags with
  | Some m => bool_decide (is_Some (m !! k))
  | None => false
  end.

(** The loop over [getTagOutput.TagSet], a slice of [*s3.Tag], on the map
    [tags] ([None] for a [nil] map).  The result is [None] when the loop
    panics: on a [nil] entry of the slice, and on an assignment to a [nil]
    map. *)
Fixpoint merge_existing (overwrite : bool) (tags : option (gmap string string))
    (tagSet : list (option Tag)) : option (option (gmap string string)) :=
  match tagSet with
  | [] => Some tags
  | None :: _ => None
  | Some tag :: rest =>
      match Key tag, Value tag with
      | Some k, Some v =>
          if has_key tags k && overwrite then merge_existing overwrite tags rest
          else match tags with
               | Some m => merge_existing overwrite (Some (<[k:=v]> m)) rest
               | None => None
               end
      | _, _ => merge_existing overwrite tags rest
      end
  end.

(** What a call of [AddBucketTag] does: it panics, or it returns [err],
    leaves the caller's map as [tags] and has sent the tag set [put] with
    [PutBucketTagging], if any.  The tag set of the request is built by
    ranging over the map, in no fixed order: it is given as a map. *)
Inductive outcome :=
| Panics
| Returns (err : option sdk_error) (tags : option (gmap string string))
          (put : option (gmap string string)).

Section AddBucketTag.

Variable GetBucketTagging : string -> sdk_error + list (option Tag).
Variable PutBucketTagging : string -> gmap string string -> option sdk_error.

Definition put_tags (bucketName : string) (tags : option (gmap string string))
  : outcome :=
  let tagSet := default ∅ tags in
  Returns (PutBucketTagging bucketName tagSet) tags (Some tagSet).

Definition AddBucketTag (bucketName : string)
    (tags : option (gmap string string)) (overwrite : bool) : outcome :=
  match GetBucketTagging bucketName with
  | inl err =>
      match err with
      | AwsError errCode _ =>
          if String.eqb errCode "NoSuchTagSet" then put_tags bucketName tags
          else Returns (Some err) tags None
      | OtherError _ => Returns (Some err) tags None
      end
  | inr tagSet =>
      match merge_existing overwrite tags tagSet with
      | Some tags' => put_tags bucketName tags'
      | None => Panics
      end
  end.

End AddBucketTag.

(** The tags of a tag set that have both a key and a value, in order *)
Fixpoint named_tags (tagSet : list (option Tag)) : list (string * string) :=
  match tagSet with
  | [] => []
  | Some (mkTag (Some k) (Some v)) :: rest => (k, v) :: named_tags rest
  | _ :: rest => named_tags rest
  end.

End Client.


(** * Properties *)

(** ** The model agrees with the repository's tests and Go's documentation *)

Example clean_doc_cases :
  map GoPath.Clean ["a//b/./c/../d/"; "../../a/../../b"; "/../a/b/../..";
                    "a/.."; "/a/..b/.c/...//"; "abc/def/../../.."]
  = ["a/b/d"; "../../../b"; "/"; "."; "/a/..b/.c/..."; ".."].
Proof. reflexivity. Qed.

Example parse_s3_scheme :
  NetURL.Parse "s3://" = inr (NetURL.mkURL "s3" EmptyString None EmptyString
    EmptyString EmptyString false false EmptyString EmptyString EmptyString).
Proof. reflexivity. Qed.

Example TestS3PathJoin :
  map S3.Join
    [S3.mkPath "test_bucket" "test_key";
     S3.mkPath "test_bucket" "test_key/dir1/dir2";
     S3.mkPath "/test_bucket" "/test_key";
     S3.mkPath "test_bucket/" "test_key/";
     S3.mkPath "/test_bucket/" "/test_key/"]
  = ["test_bucket/test_key"; "test_bucket/test_key/dir1/dir2";
     "test_bucket/test_key"; "test_bucket/test_key"; "test_bucket/test_key"].
Proof. reflexivity. Qed.

Example TestS3PathMakeUri :
  map S3.ToURI
    [S3.mkPath "test_bucket" "test_key";
     S3.mkPath "test_bucket" "test_key/dir1/dir2";
     S3.mkPath "/test_bucket" "/test_key";
     S3.mkPath "test_bucket/" "test_key/";
     S3.mkPath "/test_bucket/" "/test_key/";
     S3.mkPath "test_bucket" EmptyString]
  = ["s3://test_bucket/test_key"; "s3://test_bucket/test_key/dir1/dir2";
     "s3://test_bucket/test_key"; "s3://test_bucket/test_key";
     "s3://test_bucket/test_key"; "s3://test_bucket"].
Proof. reflexivity. Qed.

Example TestParseS3Uri :
  map S3.FromURI
    ["s3://test_bucket/test_key"; "s3://test_bucket/test_dir/test_key";
     "s3://test_bucket"; "s3://test_bucket/"; "test_bucket/test_key";
     "s3:/test_bucket/test_key"; "https://test_bucket/test_key"]
  = [(S3.mkPath "test_bucket" "test_key", None);
     (S3.mkPath "test_bucket" "test_dir/test_key", None);
     (S3.mkPath "test_bucket" EmptyString, None);
     (S3.mkPath "test_bucket" EmptyString, None);
     (S3.zeroPath, Some (S3.ParseError "test_bucket/test_key"));
     (S3.zeroPath, Some (S3.ParseError "s3:/test_bucket/test_key"));
     (S3.zeroPath, Some (S3.ParseError "https://test_bucket/test_key"))].
Proof. reflexivity. Qed.

(** With an empty bucket and an empty key nothing follows the scheme, not
    even the two separators. *)
Example ToURI_zero_path : S3.ToURI S3.zeroPath = "s3:".
Proof. reflexivity. Qed.

(** ** Strings *)

Lemma append_nil_r (s : string) : s ++ EmptyString = s.
Proof. induction s; simpl; congruence. Qed.

Lemma append_assoc (a b c : string) : (a ++ b) ++ c = a ++ (b ++ c).
Proof. induction a; simpl; congruence. Qed.

Lemma length_append (a b : string) :
  String.length (a ++ b) = String.length a + String.length b.
Proof. induction a; simpl; congruence. Qed.

Lemma rev_onto_app (a b : string) (o : list ascii) :
  rev_onto (a ++ b) o = rev_onto b (rev_onto a o).
Proof. revert o; induction a; simpl; intros; auto. Qed.

Lemma rev_onto_spec (s : string) (o : list ascii) :
  rev_onto s o = (rev (list_ascii_of_string s) ++ o)%list.
Proof.
  revert o; induction s as [|c s IH]; simpl; intros; auto.
  rewrite IH, <- app_assoc. reflexivity.
Qed.

Lemma string_of_rev_onto (s : string) :
  string_of_list_ascii (rev (rev_onto s [])) = s.
Proof.
  rewrite rev_onto_spec, app_nil_r, rev_involutive.
  apply string_of_list_ascii_of_string.
Qed.

(** ** [path.Clean] *)

Section CleanLoop.

Variable rooted : bool.

Lemma clean_loop_eq c rest out dd :
  GoPath.clean_loop rooted (String c rest) out dd =
  match GoPath.classify c rest with
  | GoPath.EmptyElem => GoPath.clean_loop rooted rest out dd
  | GoPath.DotElem => GoPath.clean_loop rooted rest out dd
  | GoPath.DotDotElem =>
      match rest with
      | String _ rest2 =>
          GoPath.run rooted rest2 (GoPath.dotdot_step rooted out dd)
      | EmptyString => (out, dd)
      end
  | GoPath.RealElem =>
      GoPath.copy_elem rooted dd rest (c :: GoPath.add_slash rooted out)
  end.
Proof.
  unfold GoPath.run. simpl.
  destruct (GoPath.classify c rest); try reflexivity.
  destruct rest; try reflexivity.
  destruct (GoPath.dotdot_step rooted out dd); reflexivity.
Qed.

Lemma copy_elem_eq dd d p o :
  GoPath.copy_elem rooted dd (String d p) o =
  if Ascii.eqb d "/" then GoPath.clean_loop rooted (String d p) o dd
  else GoPath.copy_elem rooted dd p (d :: o).
Proof. reflexivity. Qed.

Lemma classify_app_sep c x y :
  GoPath.classify c (x ++ String "/" y) = GoPath.classify c x.
Proof.
  unfold GoPath.classify.
  destruct x as [|c1 [|c2 x]]; simpl; try reflexivity.
Qed.

Lemma classify_dotdot_rest c rest :
  GoPath.classify c rest = GoPath.DotDotElem -> exists c1 rest2, rest = String c1 rest2.
Proof.
  unfold GoPath.classify. destruct rest as [|c1 rest2]; [|eauto].
  destruct (Ascii.eqb c "/"), (Ascii.eqb c "."); simpl; discriminate.
Qed.

(** The loop treats what comes before a separator and what comes after it
    one after the other. *)
Lemma clean_loop_app_sep_upto n :
  forall x, String.length x <= n -> forall y out dd,
  GoPath.clean_loop rooted (x ++ String "/" y) out dd =
  GoPath.run rooted y (GoPath.clean_loop rooted x out dd).
Proof.
  induction n as [|n IH]; intros x Hx y out dd.
  - destruct x; [reflexivity | simpl in Hx; lia].
  - destruct x as [|c x]; [reflexivity|].
    simpl in Hx.
    change (String c x ++ String "/" y) with (String c (x ++ String "/" y)).
    rewrite !clean_loop_eq, classify_app_sep.
    destruct (GoPath.classify c x) eqn:E.
    + apply IH; lia.
    + apply IH; lia.
    + destruct (classify_dotdot_rest _ _ E) as (c1 & x2 & ->).
      simpl. unfold GoPath.run at 1 3. apply IH. simpl in Hx; lia.
    + generalize (c :: GoPath.add_slash rooted out) as o.
      assert (Hx' : String.length x <= n) by lia. clear E Hx.
      induction x as [|d x IHx]; intros o.
      * reflexivity.
      * change (String d x ++ String "/" y) with (String d (x ++ String "/" y)).
        rewrite !copy_elem_eq.
        destruct (Ascii.eqb d "/").
        -- apply (IH (String d x)); assumption.
        -- apply IHx. simpl in Hx'; lia.
Qed.

Lemma clean_loop_app_sep x y out dd :
  GoPath.clean_loop rooted (x ++ String "/" y) out dd =
  GoPath.run rooted y (GoPath.clean_loop rooted x out dd).
Proof. apply (clean_loop_app_sep_upto (String.length x)); lia. Qed.

Lemma run_nil st : GoPath.run rooted EmptyString st = st.
Proof. destruct st; reflexivity. Qed.

Lemma run_app_sep x y st :
  GoPath.run rooted (x ++ String "/" y) st =
  GoPath.run rooted y (GoPath.run rooted x st).
Proof. unfold GoPath.run at 1 3. apply clean_loop_app_sep. Qed.

Lemma run_sep y st :
  GoPath.run rooted (String "/" y) st = GoPath.run rooted y st.
Proof. reflexivity. Qed.

Lemma no_sep_cons c s :
  no_sep (String c s) = true <-> c <> "/"%char /\ no_sep s = true.
Proof.
  unfold no_sep; cbn [byte_in]. rewrite (Ascii.eqb_sym "/" c).
  destruct (Ascii.eqb_spec c "/"); simpl; intuition congruence.
Qed.

Lemma copy_elem_no_sep dd p : no_sep p = true -> forall o,
  GoPath.copy_elem rooted dd p o = (rev_onto p o, dd).
Proof.
  induction p as [|d p IH]; intros H o; [reflexivity|].
  apply no_sep_cons in H as [Hd Hp].
  rewrite copy_elem_eq. apply Ascii.eqb_neq in Hd. rewrite Hd.
  simpl. apply IH, Hp.
Qed.

Lemma classify_elem c rest : no_sep (String c rest) = true ->
  GoPath.classify c rest =
  if String.eqb (String c rest) "." then GoPath.DotElem
  else if String.eqb (String c rest) ".." then GoPath.DotDotElem
  else GoPath.RealElem.
Proof.
  intros H. apply no_sep_cons in H as [Hc Hrest].
  unfold GoPath.classify. apply Ascii.eqb_neq in Hc. rewrite Hc.
  destruct rest as [|c1 rest]; simpl.
  - destruct (Ascii.eqb c "."); reflexivity.
  - apply no_sep_cons in Hrest as [Hc1 Hrest].
    apply Ascii.eqb_neq in Hc1. rewrite Hc1.
    destruct rest as [|c2 rest]; simpl.
    + destruct (Ascii.eqb c "."), (Ascii.eqb c1 "."); reflexivity.
    + apply no_sep_cons in Hrest as [Hc2 Hrest].
      apply Ascii.eqb_neq in Hc2. rewrite Hc2.
      destruct (Ascii.eqb c "."), (Ascii.eqb c1 "."); reflexivity.
Qed.

(** One whole element is one [elem_step]. *)
Lemma run_elem e st : no_sep e = true ->
  GoPath.run rooted e st = elem_step rooted st e.
Proof.
  intros H. destruct e as [|c rest]; [apply run_nil|].
  unfold GoPath.run, elem_step.
  rewrite clean_loop_eq, (classify_elem _ _ H).
  change (String.eqb (String c rest) EmptyString) with false.
  cbv beta iota. rewrite orb_false_l.
  destruct (String.eqb (String c rest) ".") eqn:E1.
  - apply String.eqb_eq in E1. injection E1 as -> ->. destruct st; reflexivity.
  - destruct (String.eqb (String c rest) "..") eqn:E2.
    + apply String.eqb_eq in E2. injection E2 as -> ->. apply run_nil.
    + apply no_sep_cons in H as [_ H].
      rewrite (copy_elem_no_sep _ _ H). reflexivity.
Qed.

End CleanLoop.

(** ** Elements of a path *)

Lemma elements_cases (s : string) :
  exists e, no_sep e = true /\
    ((s = e /\ elements s = [e]) \/
     (exists s', s = e ++ String "/" s' /\ elements s = e :: elements s')).
Proof.
  induction s as [|c s IH].
  - exists EmptyString. split; [reflexivity | left; split; reflexivity].
  - destruct IH as (e & He & IH). cbn [elements].
    destruct (Ascii.eqb_spec c "/") as [->|Hc].
    + exists EmptyString. split; [reflexivity|].
      right. exists s. split; reflexivity.
    + exists (String c e). split; [apply no_sep_cons; split; assumption|].
      destruct IH as [[-> Hel] | (s' & -> & Hel)]; rewrite Hel.
      * left. split; reflexivity.
      * right. exists s'. split; reflexivity.
Qed.

Lemma elements_no_sep (e : string) : no_sep e = true -> elements e = [e].
Proof.
  induction e as [|c e IH]; intros H; [reflexivity|].
  apply no_sep_cons in H as [Hc He]. cbn [elements].
  apply Ascii.eqb_neq in Hc. rewrite Hc, (IH He). reflexivity.
Qed.

Lemma elements_app_sep (a b : string) :
  elements (a ++ String "/" b) = (elements a ++ elements b)%list.
Proof.
  induction a as [|c a IH]; [reflexivity|].
  cbn [append elements]. rewrite IH.
  destruct (Ascii.eqb c "/"); [reflexivity|].
  destruct (elements a) as [|e es] eqn:E; [|reflexivity].
  destruct (elements_cases a) as (e & _ & [[_ H] | (s' & _ & H)]); congruence.
Qed.

Lemma elements_all_no_sep (s : string) :
  Forall (fun e => no_sep e = true) (elements s).
Proof.
  remember (String.length s) as n eqn:Hn.
  revert s Hn. induction n as [n IH] using lt_wf_ind. intros s ->.
  destruct (elements_cases s) as (e & He & [[-> Hel] | (s' & -> & Hel)]);
    rewrite Hel; constructor; auto.
  apply (IH (String.length s')); [|reflexivity].
  rewrite length_append. simpl. lia.
Qed.

(** The loop of [Clean] is a fold of [elem_step] over the elements. *)
Lemma run_elements rooted (s : string) : forall st,
  GoPath.run rooted s st = fold_left (elem_step rooted) (elements s) st.
Proof.
  remember (String.length s) as n eqn:Hn.
  revert s Hn. induction n as [n IH] using lt_wf_ind. intros s -> st.
  destruct (elements_cases s) as (e & He & [[-> Hel] | (s' & -> & Hel)]);
    rewrite Hel; cbn [fold_left].
  - apply run_elem, He.
  - rewrite run_app_sep, (run_elem _ _ _ He).
    apply (IH (String.length s')); [|reflexivity].
    rewrite length_append. simpl. lia.
Qed.

(** ** [strings.Trim] *)

Lemma trimRightByte_decomp (s : string) :
  exists k, s = GoStrings.trimRightByte s "/" ++ slashes k.
Proof.
  induction s as [|c s [k IH]].
  - exists 0. reflexivity.
  - cbn [GoStrings.trimRightByte].
    destruct (GoStrings.trimRightByte s "/") as [|d t] eqn:E.
    + destruct (Ascii.eqb_spec c "/") as [->|Hc].
      * exists (S k). simpl in *. congruence.
      * exists k. simpl in *. congruence.
    + exists k. simpl in *. congruence.
Qed.

Lemma trimLeftByte_no_prefix (s : string) :
  GoStrings.HasPrefix (GoStrings.trimLeftByte s "/") "/" = false.
Proof.
  induction s as [|c s IH]; [reflexivity|].
  cbn [GoStrings.trimLeftByte].
  destruct (Ascii.eqb c "/") eqn:E; [assumption|].
  cbn [GoStrings.HasPrefix]. rewrite E. reflexivity.
Qed.

Lemma Trim_no_prefix (s : string) :
  GoStrings.HasPrefix (GoStrings.Trim s "/") "/" = false.
Proof. destruct s; [reflexivity | apply trimLeftByte_no_prefix]. Qed.

Lemma run_slashes rooted k st : GoPath.run rooted (slashes k) st = st.
Proof.
  induction k as [|k IH]; [apply run_nil|].
  cbn [slashes]. rewrite run_sep. exact IH.
Qed.

Lemma run_app_slashes rooted s k st :
  GoPath.run rooted (s ++ slashes k) st = GoPath.run rooted s st.
Proof.
  destruct k as [|k]; [rewrite append_nil_r; reflexivity|].
  cbn [slashes]. rewrite run_app_sep. apply run_slashes.
Qed.

Lemma run_trimLeftByte rooted s st :
  GoPath.run rooted (GoStrings.trimLeftByte s "/") st = GoPath.run rooted s st.
Proof.
  induction s as [|c s IH]; [reflexivity|].
  cbn [GoStrings.trimLeftByte].
  destruct (Ascii.eqb_spec c "/") as [->|Hc]; [|reflexivity].
  rewrite run_sep. exact IH.
Qed.

Lemma run_trimRightByte rooted s st :
  GoPath.run rooted (GoStrings.trimRightByte s "/") st = GoPath.run rooted s st.
Proof.
  destruct (trimRightByte_decomp s) as [k H].
  rewrite H at 2. symmetry. apply run_app_slashes.
Qed.

(** Trimming the separators off both ends changes nothing for the loop. *)
Lemma run_Trim rooted s st :
  GoPath.run rooted (GoStrings.Trim s "/") st = GoPath.run rooted s st.
Proof.
  destruct s as [|c s]; [reflexivity|].
  unfold GoStrings.Trim. rewrite run_trimLeftByte. apply run_trimRightByte.
Qed.

(** ** [path.Clean] and [path.Join] on relative paths *)

Lemma Clean_relative (x : string) :
  GoStrings.HasPrefix x "/" = false ->
  GoPath.Clean x = finish (GoPath.run false x ([], 0)).
Proof.
  intros H. destruct x as [|c x]; [reflexivity|].
  cbn [GoStrings.HasPrefix] in H. rewrite andb_true_r in H.
  unfold GoPath.Clean, finish, GoPath.run. rewrite H. cbn [fst snd].
  destruct (GoPath.clean_loop false (String c x) [] 0) as [[|b out] dd];
    reflexivity.
Qed.

Lemma Join_pair (a b : string) :
  GoPath.Join [a; b] =
  match a, b with
  | EmptyString, EmptyString => EmptyString
  | EmptyString, _ => GoPath.Clean b
  | _, _ => GoPath.Clean (a ++ String "/" b)
  end.
Proof. destruct a, b; reflexivity. Qed.

(** [Clean] never returns the empty string. *)
Lemma Clean_nonempty x : GoPath.Clean x <> EmptyString.
Proof.
  unfold GoPath.Clean. destruct x as [|c x]; [discriminate|].
  match goal with |- context [let '(_, _) := ?e in _] => destruct e as [[|b out] dd] end;
    [discriminate|].
  cbn [rev]. destruct (rev out); discriminate.
Qed.

(** ** The buffer of [Clean] as a stack of elements *)

Lemma join_cons_length a l :
  String.length (join_elems (a :: l)) =
  String.length a +
  match l with [] => 0 | _ => 1 + String.length (join_elems l) end.
Proof.
  cbn [join_elems]. destruct l; [lia|].
  rewrite length_append. reflexivity.
Qed.

Lemma join_snoc es e :
  join_elems (es ++ [e])%list =
  match es with
  | [] => e
  | _ => join_elems es ++ String "/" e
  end.
Proof.
  induction es as [|a es IH]; [reflexivity|].
  destruct es as [|b es]; [reflexivity|].
  change (join_elems ((a :: b :: es) ++ [e])%list)
    with (a ++ String "/" (join_elems ((b :: es) ++ [e])%list)).
  rewrite IH.
  change (join_elems (a :: b :: es)) with (a ++ String "/" (join_elems (b :: es))).
  rewrite append_assoc. reflexivity.
Qed.

Lemma length_join_firstn es : forall k,
  String.length (join_elems (firstn k es)) <= String.length (join_elems es).
Proof.
  induction es as [|a es IH]; intros [|k]; cbn [firstn]; try (simpl; lia).
  rewrite !join_cons_length. specialize (IH k).
  destruct (firstn k es) eqn:E; destruct es; try lia.
  destruct k; discriminate.
Qed.

Lemma length_rev_onto s o :
  List.length (rev_onto s o) = String.length s + List.length o.
Proof.
  revert o; induction s as [|c s IH]; intros o; [reflexivity|].
  cbn [rev_onto]. rewrite IH. simpl. lia.
Qed.

Lemma solid_inv e : solid e = true ->
  exists c e', e = String c e' /\ c <> "/"%char /\ no_sep e' = true.
Proof.
  unfold solid. destruct e as [|c e']; [discriminate|].
  intros H. apply andb_true_iff in H as [_ H].
  apply no_sep_cons in H as [Hc He]. eauto.
Qed.

Lemma pops_to_push dd R Y c :
  pops_to dd R Y -> c <> "/"%char -> pops_to dd R (c :: Y).
Proof.
  intros (b & Y' & -> & Hb & Hle & Hbt) Hc.
  exists c, (b :: Y'). repeat split; auto; [simpl; lia|].
  cbn [GoPath.backtrack].
  apply Ascii.eqb_neq in Hc. rewrite Hc.
  replace (dd <? List.length (b :: Y'))%nat with true; [exact Hbt|].
  symmetry. apply Nat.ltb_lt. simpl. lia.
Qed.

Lemma pops_to_rev_onto dd R e : no_sep e = true -> forall Y,
  pops_to dd R Y -> pops_to dd R (rev_onto e Y).
Proof.
  induction e as [|c e IH]; intros H Y HY; [exact HY|].
  apply no_sep_cons in H as [Hc He].
  cbn [rev_onto]. apply IH; [exact He|]. apply pops_to_push; assumption.
Qed.

Lemma pops_to_after_sep dd R c :
  c <> "/"%char -> dd <= List.length R -> pops_to dd R (c :: "/"%char :: R).
Proof.
  intros Hc Hle. exists c, ("/"%char :: R). repeat split; auto; [simpl; lia|].
  cbn [GoPath.backtrack].
  apply Ascii.eqb_neq in Hc. rewrite Hc.
  replace (dd <? List.length ("/"%char :: R))%nat with true
    by (symmetry; apply Nat.ltb_lt; simpl; lia).
  destruct R as [|b R']; [reflexivity|].
  cbn [GoPath.backtrack andb negb]. rewrite Ascii.eqb_refl, andb_false_r.
  reflexivity.
Qed.

Lemma pops_to_single c : c <> "/"%char -> pops_to 0 [] [c].
Proof. intros Hc. exists c, []. repeat split; auto. Qed.

Lemma stack_inv_init : stack_inv [] 0 ([], 0).
Proof. repeat split; auto. Qed.

Lemma join_nonempty es :
  Forall (fun e => solid e = true) es -> es <> [] ->
  join_elems es <> EmptyString.
Proof.
  intros H Hne. destruct es as [|a es]; [congruence|].
  inversion H as [|? ? Ha _]; subst.
  destruct (solid_inv _ Ha) as (c & e' & -> & _).
  cbn [join_elems]. destruct es; discriminate.
Qed.

(** Writing an element on top of the stack *)
Lemma rev_onto_join_snoc es e :
  Forall (fun e => solid e = true) es ->
  rev_onto (join_elems (es ++ [e])%list) [] =
  rev_onto e (GoPath.add_slash false (rev_onto (join_elems es) [])).
Proof.
  intros H. rewrite join_snoc. destruct es as [|a es]; [reflexivity|].
  rewrite rev_onto_app. cbn [rev_onto]. f_equal.
  unfold GoPath.add_slash. cbn [negb andb orb].
  assert (Hne : join_elems (a :: es) <> EmptyString)
    by (apply join_nonempty; [assumption | discriminate]).
  rewrite length_rev_onto.
  destruct (join_elems (a :: es)); [congruence | reflexivity].
Qed.

Lemma stack_inv_push es k st e :
  stack_inv es k st -> solid e = true ->
  stack_inv (es ++ [e])%list k
            (rev_onto e (GoPath.add_slash false (fst st)), snd st).
Proof.
  intros (Hes & Hout & Hk & Hdd) He. unfold stack_inv. cbn [fst snd].
  split; [apply Forall_app; split; [assumption | constructor; auto]|].
  split; [rewrite Hout; symmetry; apply rev_onto_join_snoc; assumption|].
  split; [rewrite length_app; simpl; lia|].
  rewrite firstn_app. replace (k - List.length es) with 0 by lia.
  cbn [firstn]. rewrite app_nil_r. exact Hdd.
Qed.

Lemma stack_inv_dotdot es k st :
  stack_inv es k st ->
  exists es' k', stack_inv es' k' (GoPath.dotdot_step false (fst st) (snd st)).
Proof.
  intros (Hes & Hout & Hk & Hdd). destruct st as [out dd]. cbn [fst snd] in *.
  unfold GoPath.dotdot_step.
  destruct (dd <? List.length out)%nat eqn:Hlt.
  - apply Nat.ltb_lt in Hlt.
    assert (Hk' : k < List.length es).
    { destruct (Nat.eq_dec k (List.length es)) as [->|]; [|lia].
      rewrite firstn_all in Hdd. rewrite Hout, length_rev_onto in Hlt.
      simpl in Hlt. lia. }
    destruct (exists_last (l := es)) as (es0 & e0 & ->);
      [intros ->; simpl in Hk'; lia|].
    rewrite length_app in Hk'. simpl in Hk'.
    apply Forall_app in Hes as [Hes0 He0].
    apply Forall_inv in He0.
    destruct (solid_inv _ He0) as (c0 & e0' & -> & Hc0 & Hno).
    rewrite firstn_app in Hdd.
    replace (k - List.length es0) with 0 in Hdd by lia.
    cbn [firstn] in Hdd. rewrite app_nil_r in Hdd.
    set (R := rev_onto (join_elems es0) []).
    assert (HR : dd <= List.length R).
    { unfold R. rewrite length_rev_onto, Hdd. simpl.
      pose proof (length_join_firstn es0 k). lia. }
    assert (Hpop : pops_to dd R (rev_onto (join_elems (es0 ++ [String c0 e0'])%list) [])).
    { rewrite rev_onto_join_snoc by assumption. fold R.
      cbn [rev_onto]. apply pops_to_rev_onto; [assumption|].
      unfold GoPath.add_slash. cbn [negb andb orb].
      destruct R as [|r R'] eqn:ER.
      - simpl. replace dd with 0 by (simpl in HR; lia).
        apply pops_to_single, Hc0.
      - cbn [List.length Nat.eqb negb]. apply pops_to_after_sep; assumption. }
    destruct Hpop as (b & Y' & HY & _ & _ & Hbt).
    rewrite Hout, HY, Hbt.
    exists es0, k. unfold stack_inv. cbn [fst snd].
    repeat split; auto; lia.
  - apply Nat.ltb_ge in Hlt. cbn [negb].
    exists (es ++ [".."])%list, (List.length (es ++ [".."])%list).
    assert (Hpush := stack_inv_push es k (out, dd) ".."
              (conj Hes (conj Hout (conj Hk Hdd))) eq_refl).
    destruct Hpush as (H1 & H2 & _ & _). cbn [fst snd] in H2.
    unfold stack_inv. cbn [fst snd].
    assert (Hout2 : "."%char :: "."%char ::
              (if (0 <? List.length out)%nat then "/"%char :: out else out)
            = rev_onto (join_elems (es ++ [".."])%list) []).
    { rewrite <- H2. cbn [rev_onto]. unfold GoPath.add_slash. cbn [negb andb orb].
      destruct out; reflexivity. }
    rewrite Hout2.
    repeat split; auto.
    rewrite firstn_all, length_rev_onto. simpl. lia.
Qed.

Lemma plain_no_sep_solid e : no_sep e = true ->
  String.eqb e EmptyString = false -> solid e = true.
Proof. intros H1 H2. unfold solid. rewrite H1, H2. reflexivity. Qed.

Lemma stack_inv_elem_step es k st e :
  stack_inv es k st -> no_sep e = true ->
  exists es' k', stack_inv es' k' (elem_step false st e).
Proof.
  intros Hinv He. unfold elem_step.
  destruct (String.eqb e EmptyString) eqn:E0; [exists es, k; exact Hinv|].
  destruct (String.eqb e ".") eqn:E1; [exists es, k; exact Hinv|].
  cbn [orb].
  destruct (String.eqb e "..") eqn:E2.
  - apply stack_inv_dotdot with (es := es) (k := k). exact Hinv.
  - exists (es ++ [e])%list, k. apply stack_inv_push; [exact Hinv|].
    apply plain_no_sep_solid; assumption.
Qed.

Lemma stack_inv_fold l : Forall (fun e => no_sep e = true) l ->
  forall es k st, stack_inv es k st ->
  exists es' k', stack_inv es' k' (fold_left (elem_step false) l st).
Proof.
  induction 1 as [|e l He _ IH]; intros es k st Hinv; cbn [fold_left]; eauto.
  destruct (stack_inv_elem_step es k st e Hinv He) as (es1 & k1 & H1).
  eapply IH, H1.
Qed.

(** [Clean] of a relative path is [.] or solid elements joined by single
    separators. *)
Lemma Clean_relative_shape (x : string) :
  GoStrings.HasPrefix x "/" = false ->
  GoPath.Clean x = "." \/
  exists es, es <> [] /\ Forall (fun e => solid e = true) es /\
             GoPath.Clean x = join_elems es.
Proof.
  intros H. rewrite (Clean_relative x H), run_elements.
  destruct (stack_inv_fold (elements x) (elements_all_no_sep x) [] 0 ([], 0)
              stack_inv_init) as (es & k & Hes & Hout & _).
  unfold finish. rewrite Hout.
  destruct es as [|a es]; [left; reflexivity|].
  right. exists (a :: es). split; [discriminate|]. split; [assumption|].
  pose proof (join_nonempty (a :: es) Hes ltac:(discriminate)) as Hne.
  pose proof (string_of_rev_onto (join_elems (a :: es))) as Hs.
  destruct (rev_onto (join_elems (a :: es)) []) eqn:E; [|exact Hs].
  exfalso. apply Hne. symmetry. exact Hs.
Qed.

(** ** Separators in joined elements *)

Lemma HasSuffixByte_no_sep e : no_sep e = true -> GoStrings.HasSuffixByte e "/" = false.
Proof.
  induction e as [|c e IH]; intros H; [reflexivity|].
  apply no_sep_cons in H as [Hc He]. cbn [GoStrings.HasSuffixByte].
  destruct e; [apply Ascii.eqb_neq, Hc | apply IH, He].
Qed.

Lemma HasSuffixByte_app a b c : b <> EmptyString ->
  GoStrings.HasSuffixByte (a ++ b) c = GoStrings.HasSuffixByte b c.
Proof.
  intros Hb. induction a as [|x a IH]; [reflexivity|].
  cbn [append GoStrings.HasSuffixByte].
  destruct (a ++ b) eqn:E; [|exact IH].
  destruct a; simpl in E; congruence.
Qed.

Lemma Index_sep2_no_sep e : no_sep e = true -> GoStrings.Index e "//" = None.
Proof.
  induction e as [|c e IH]; intros H; [reflexivity|].
  apply no_sep_cons in H as [Hc He].
  cbn [GoStrings.Index GoStrings.HasPrefix].
  apply Ascii.eqb_neq in Hc. rewrite Hc, (IH He). reflexivity.
Qed.

Lemma Index_sep2_elem e t : no_sep e = true ->
  GoStrings.HasPrefix t "/" = false -> GoStrings.Index t "//" = None ->
  GoStrings.Index (e ++ String "/" t) "//" = None.
Proof.
  intros He Ht Hi. induction e as [|c e IH].
  - cbn [append GoStrings.Index]. cbn [GoStrings.HasPrefix] in *.
    rewrite Ht, Hi. reflexivity.
  - apply no_sep_cons in He as [Hc He].
    cbn [append GoStrings.Index GoStrings.HasPrefix].
    apply Ascii.eqb_neq in Hc. rewrite Hc, (IH He). reflexivity.
Qed.

Lemma HasPrefix_solid_app e t : solid e = true ->
  GoStrings.HasPrefix (e ++ t) "/" = false.
Proof.
  intros He. destruct (solid_inv _ He) as (c & e' & -> & Hc & _).
  cbn [append GoStrings.HasPrefix]. apply Ascii.eqb_neq in Hc. rewrite Hc.
  reflexivity.
Qed.

Lemma solid_no_sep e : solid e = true -> no_sep e = true.
Proof. unfold solid. intros H. apply andb_true_iff in H. tauto. Qed.

Lemma join_solid_props es : Forall (fun e => solid e = true) es ->
  GoStrings.HasPrefix (join_elems es) "/" = false /\
  GoStrings.HasSuffixByte (join_elems es) "/" = false /\
  GoStrings.Index (join_elems es) "//" = None.
Proof.
  induction 1 as [|a es Ha Hes IH]; [repeat split|].
  destruct IH as (IH1 & IH2 & IH3).
  pose proof (solid_no_sep _ Ha) as Hno.
  cbn [join_elems]. destruct es as [|b es].
  - split; [|split].
    + rewrite <- (append_nil_r a). apply HasPrefix_solid_app, Ha.
    + apply HasSuffixByte_no_sep, Hno.
    + apply Index_sep2_no_sep, Hno.
  - split; [|split].
    + apply HasPrefix_solid_app, Ha.
    + rewrite HasSuffixByte_app by discriminate.
      change (String "/" (join_elems (b :: es)))
        with ("/" ++ join_elems (b :: es)).
      rewrite HasSuffixByte_app; [exact IH2|].
      apply join_nonempty; [assumption | discriminate].
    + apply Index_sep2_elem; assumption.
Qed.

(** ** [Join] of an S3 path *)

Lemma S3_Join_cases (p : S3.Path) :
  S3.Join p = EmptyString \/
  exists x, GoStrings.HasPrefix x "/" = false /\ S3.Join p = GoPath.Clean x.
Proof.
  unfold S3.Join. rewrite Join_pair.
  pose proof (Trim_no_prefix (S3.Bucket p)) as Hb.
  pose proof (Trim_no_prefix (S3.Key p)) as Hk.
  destruct (GoStrings.Trim (S3.Bucket p) "/") as [|c tb] eqn:Eb.
  - destruct (GoStrings.Trim (S3.Key p) "/") as [|d tk] eqn:Ek; [left; reflexivity|].
    right. exists (String d tk). split; [assumption | reflexivity].
  - right. exists (String c tb ++ String "/" (GoStrings.Trim (S3.Key p) "/")).
    split; [|reflexivity].
    cbn [append GoStrings.HasPrefix] in *. exact Hb.
Qed.

(** ** Paths that [Clean] leaves as they are *)

Lemma join_elements (s : string) : join_elems (elements s) = s.
Proof.
  remember (String.length s) as n eqn:Hn.
  revert s Hn. induction n as [n IH] using lt_wf_ind. intros s ->.
  destruct (elements_cases s) as (e & He & [[-> Hel] | (s' & -> & Hel)]);
    rewrite Hel; [reflexivity|].
  cbn [join_elems].
  rewrite (IH (String.length s')); [|rewrite length_append; simpl; lia|reflexivity].
  destruct (elements s') eqn:E; [|reflexivity].
  destruct (elements_cases s') as (e' & _ & [[_ H] | (s'' & _ & H)]); congruence.
Qed.

Lemma plain_elem_step e st : plain e = true ->
  elem_step false st e = (rev_onto e (GoPath.add_slash false (fst st)), snd st).
Proof.
  unfold plain, elem_step. intros H.
  apply andb_true_iff in H as [H H3]. apply andb_true_iff in H as [H1 H2].
  apply negb_true_iff in H1, H2, H3. rewrite H1, H2, H3. reflexivity.
Qed.

Lemma plain_solid e : plain e = true -> no_sep e = true -> solid e = true.
Proof.
  unfold plain, solid. intros H Hno. rewrite Hno.
  apply andb_true_iff in H as [H _]. apply andb_true_iff in H as [H _].
  rewrite H. reflexivity.
Qed.

Lemma fold_plain l : Forall (fun e => no_sep e = true) l ->
  forallb plain l = true ->
  forall es dd, Forall (fun e => solid e = true) es ->
  fold_left (elem_step false) l (rev_onto (join_elems es) [], dd) =
  (rev_onto (join_elems (es ++ l)%list) [], dd).
Proof.
  induction 1 as [|e l He Hl IH]; intros Hp es dd Hes; cbn [fold_left].
  - rewrite app_nil_r. reflexivity.
  - cbn [forallb] in Hp. apply andb_true_iff in Hp as [Hpe Hpl].
    rewrite (plain_elem_step _ _ Hpe). cbn [fst snd].
    rewrite <- (rev_onto_join_snoc es e Hes).
    rewrite (IH Hpl (es ++ [e])%list dd).
    + rewrite <- app_assoc. reflexivity.
    + apply Forall_app. split; [assumption|].
      constructor; [apply plain_solid; assumption | constructor].
Qed.

Lemma plain_path_relative (s : string) : plain_path s = true ->
  s <> EmptyString /\ GoStrings.HasPrefix s "/" = false.
Proof.
  unfold plain_path. destruct s as [|c s]; [discriminate|].
  intros H. split; [discriminate|].
  cbn [elements GoStrings.HasPrefix] in *.
  destruct (Ascii.eqb c "/"); [discriminate | reflexivity].
Qed.

(** [Clean] changes nothing in a relative path of plain elements. *)
Lemma Clean_plain_path (s : string) : plain_path s = true -> GoPath.Clean s = s.
Proof.
  intros H. destruct (plain_path_relative s H) as [Hne Hrel].
  rewrite (Clean_relative s Hrel), run_elements.
  change ([] : list ascii) with (rev_onto (join_elems []) []).
  rewrite (fold_plain _ (elements_all_no_sep s) H [] 0 (Forall_nil _)).
  cbn [app]. rewrite join_elements. unfold finish. cbn [fst].
  pose proof (string_of_rev_onto s) as Hs.
  destruct (rev_onto s []) eqn:E; [|exact Hs].
  exfalso. apply Hne. symmetry. exact Hs.
Qed.

Lemma plain_path_app_sep (a b : string) :
  plain_path (a ++ String "/" b) = plain_path a && plain_path b.
Proof. unfold plain_path. rewrite elements_app_sep. apply forallb_app. Qed.

(** A separator at the end of a relative path is ignored. *)
Lemma Clean_app_sep_nil (t : string) :
  t <> EmptyString -> GoStrings.HasPrefix t "/" = false ->
  GoPath.Clean (t ++ "/") = GoPath.Clean t.
Proof.
  intros Hne Hrel.
  rewrite (Clean_relative t Hrel), Clean_relative.
  - rewrite run_app_sep, run_nil. reflexivity.
  - destruct t; [congruence | exact Hrel].
Qed.

Lemma Trim_head c s : c <> "/"%char ->
  exists t, GoStrings.Trim (String c s) "/" = String c t.
Proof.
  intros Hc. unfold GoStrings.Trim. cbn [GoStrings.trimRightByte].
  apply Ascii.eqb_neq in Hc.
  destruct (GoStrings.trimRightByte s "/") as [|d t];
    rewrite ?Hc; cbn [GoStrings.trimLeftByte]; rewrite Hc; eauto.
Qed.

(** [path.Join] of two parts does not change when the parts are trimmed
    first, unless the first non-empty part begins with a separator. *)
Lemma Join_pair_Trim (a b : string) :
  GoStrings.HasPrefix (a ++ b) "/" = false ->
  GoPath.Join [a; b] = GoPath.Join [GoStrings.Trim a "/"; GoStrings.Trim b "/"].
Proof.
  intros H. rewrite !Join_pair.
  destruct a as [|c a].
  - cbn [append] in H. change (GoStrings.Trim EmptyString "/") with EmptyString.
    destruct b as [|d b]; [reflexivity|].
    assert (Hd : d <> "/"%char).
    { cbn [GoStrings.HasPrefix] in H. rewrite andb_true_r in H.
      apply Ascii.eqb_neq, H. }
    destruct (Trim_head d b Hd) as [t Ht].
    rewrite Ht, <- Ht.
    rewrite (Clean_relative _ H), (Clean_relative _ (Trim_no_prefix _)).
    rewrite run_Trim. reflexivity.
  - assert (Hc : c <> "/"%char).
    { cbn [append GoStrings.HasPrefix] in H. rewrite andb_true_r in H.
      apply Ascii.eqb_neq, H. }
    destruct (Trim_head c a Hc) as [t Ht]. rewrite Ht.
    apply Ascii.eqb_neq in Hc.
    rewrite !Clean_relative
      by (cbn [append GoStrings.HasPrefix]; rewrite Hc; reflexivity).
    rewrite !run_app_sep, <- Ht, !run_Trim. reflexivity.
Qed.

(** [Clean] of a relative path has no separator at either end and no two
    in a row. *)
Lemma Clean_relative_tidy (x : string) :
  GoStrings.HasPrefix x "/" = false ->
  GoStrings.HasPrefix (GoPath.Clean x) "/" = false /\
  GoStrings.HasSuffixByte (GoPath.Clean x) "/" = false /\
  GoStrings.Index (GoPath.Clean x) "//" = None.
Proof.
  intros Hx.
  destruct (Clean_relative_shape x Hx) as [-> | (es & _ & Hes & ->)];
    [repeat split|].
  apply join_solid_props, Hes.
Qed.

(** ** [path.Clean] on rooted paths *)

Lemma rooted_inv_init : rooted_inv [] (["/"%char], 1).
Proof. repeat split; auto. Qed.

Lemma rev_onto_rooted_snoc es e :
  Forall (fun e => solid e = true) es ->
  rev_onto (String "/" (join_elems (es ++ [e])%list)) [] =
  rev_onto e (GoPath.add_slash true (rev_onto (String "/" (join_elems es)) [])).
Proof.
  intros H. rewrite join_snoc. cbn [rev_onto]. destruct es as [|a es]; [reflexivity|].
  rewrite rev_onto_app. cbn [rev_onto]. f_equal.
  unfold GoPath.add_slash. cbn [negb andb orb].
  assert (Hne : join_elems (a :: es) <> EmptyString)
    by (apply join_nonempty; [assumption | discriminate]).
  rewrite length_rev_onto. rewrite orb_false_r.
  destruct (join_elems (a :: es)) as [|c j]; [congruence|].
  cbn [String.length]. replace (S (String.length j) + List.length ["/"%char])
    with (S (S (String.length j))) by (simpl; lia).
  reflexivity.
Qed.

Lemma rooted_inv_push es st e :
  rooted_inv es st -> solid e = true ->
  rooted_inv (es ++ [e])%list (rev_onto e (GoPath.add_slash true (fst st)), snd st).
Proof.
  intros (Hes & Hout & Hdd) He. unfold rooted_inv. cbn [fst snd].
  split; [apply Forall_app; split; [assumption | constructor; auto]|].
  split; [rewrite Hout; symmetry; apply rev_onto_rooted_snoc; assumption|].
  exact Hdd.
Qed.

Lemma pops_to_root c : c <> "/"%char -> pops_to 1 ["/"%char] [c; "/"%char].
Proof. intros Hc. exists c, ["/"%char]. repeat split; auto. Qed.

(** On a rooted path the [..] case removes the last element, and does
    nothing at the root. *)
Lemma rooted_dotdot es st :
  rooted_inv es st ->
  GoPath.dotdot_step true (fst st) (snd st) =
  (rev_onto (String "/" (join_elems (removelast es))) [], 1).
Proof.
  intros (Hes & Hout & Hdd). destruct st as [out dd]. cbn [fst snd] in *.
  subst dd. unfold GoPath.dotdot_step.
  destruct es as [|a es'] using rev_ind.
  - rewrite Hout. reflexivity.
  - clear IHes'. rewrite removelast_last.
    apply Forall_app in Hes as [Hes0 He0]. apply Forall_inv in He0.
    destruct (solid_inv _ He0) as (c0 & e0' & -> & Hc0 & Hno).
    set (R := rev_onto (String "/" (join_elems es')) []).
    assert (HR : 1 <= List.length R)
      by (unfold R; rewrite length_rev_onto; simpl; lia).
    assert (Hpop : pops_to 1 R out).
    { rewrite Hout, rev_onto_rooted_snoc by assumption. fold R.
      cbn [rev_onto]. apply pops_to_rev_onto; [assumption|].
      unfold GoPath.add_slash. cbn [negb andb orb]. rewrite orb_false_r.
      destruct es' as [|b es'].
      - apply pops_to_root, Hc0.
      - assert (Hne : join_elems (b :: es') <> EmptyString)
          by (apply join_nonempty; [assumption | discriminate]).
        assert (Hlen : (List.length R =? 1)%nat = false).
        { apply Nat.eqb_neq. unfold R. rewrite length_rev_onto.
          destruct (join_elems (b :: es')); [congruence | simpl; lia]. }
        rewrite Hlen. cbn [negb]. apply pops_to_after_sep; assumption. }
    destruct Hpop as (b & Y' & HY & _ & Hle & Hbt).
    rewrite HY, Hbt.
    replace (1 <? List.length (b :: Y'))%nat with true; [reflexivity|].
    symmetry. apply Nat.ltb_lt. simpl. lia.
Qed.

Lemma Forall_removelast {A} (P : A -> Prop) l : Forall P l -> Forall P (removelast l).
Proof.
  destruct l as [|a l] using rev_ind; [trivial|].
  rewrite removelast_last. intros H. apply Forall_app in H. tauto.
Qed.

Lemma rooted_inv_elem_step es st e :
  rooted_inv es st -> no_sep e = true ->
  exists es', rooted_inv es' (elem_step true st e).
Proof.
  intros Hinv He. unfold elem_step.
  destruct (String.eqb e EmptyString) eqn:E0; [exists es; exact Hinv|].
  destruct (String.eqb e ".") eqn:E1; [exists es; exact Hinv|].
  cbn [orb].
  destruct (String.eqb e "..") eqn:E2.
  - exists (removelast es). rewrite (rooted_dotdot es st Hinv).
    destruct Hinv as (Hes & _ & _). repeat split. apply Forall_removelast, Hes.
  - exists (es ++ [e])%list. apply rooted_inv_push; [exact Hinv|].
    apply plain_no_sep_solid; assumption.
Qed.

Lemma rooted_inv_fold l : Forall (fun e => no_sep e = true) l ->
  forall es st, rooted_inv es st ->
  exists es', rooted_inv es' (fold_left (elem_step true) l st).
Proof.
  induction 1 as [|e l He _ IH]; intros es st Hinv; cbn [fold_left]; eauto.
  destruct (rooted_inv_elem_step es st e Hinv He) as (es1 & H1).
  eapply IH, H1.
Qed.

Lemma Clean_rooted (rest : string) :
  GoPath.Clean (String "/" rest) =
  string_of_list_ascii (rev (fst (GoPath.run true rest (["/"%char], 1)))) \/
  fst (GoPath.run true rest (["/"%char], 1)) = [].
Proof.
  unfold GoPath.Clean, GoPath.run. cbn [Ascii.eqb Bool.eqb fst snd].
  destruct (GoPath.clean_loop true rest ["/"%char] 1) as [[|b out] dd];
    [right | left]; reflexivity.
Qed.

(** [Clean] of a rooted path is the root separator and solid elements joined
    by single separators. *)
Lemma Clean_rooted_shape (rest : string) :
  exists es, Forall (fun e => solid e = true) es /\
             GoPath.Clean (String "/" rest) = String "/" (join_elems es).
Proof.
  destruct (rooted_inv_fold (elements rest) (elements_all_no_sep rest) []
              (["/"%char], 1) rooted_inv_init) as (es & Hes & Hout & _).
  rewrite <- run_elements in Hout.
  exists es. split; [exact Hes|].
  destruct (Clean_rooted rest) as [-> | H].
  - rewrite Hout. apply string_of_rev_onto.
  - rewrite H in Hout. cbn [rev_onto] in Hout.
    pose proof (f_equal (@List.length ascii) Hout) as Hl.
    rewrite length_rev_onto in Hl. simpl in Hl. lia.
Qed.

(** [Clean] of any path: no two separators in a row, none at the end unless
    the result is the root alone, one at the start exactly for a rooted
    path. *)
Lemma Clean_tidy (x : string) :
  GoStrings.Index (GoPath.Clean x) "//" = None /\
  (GoStrings.HasSuffixByte (GoPath.Clean x) "/" = true -> GoPath.Clean x = "/") /\
  GoStrings.HasPrefix (GoPath.Clean x) "/" = GoStrings.HasPrefix x "/".
Proof.
  destruct (GoStrings.HasPrefix x "/") eqn:Hx.
  - destruct x as [|c rest]; [discriminate|].
    cbn [GoStrings.HasPrefix] in Hx. rewrite andb_true_r in Hx.
    apply Ascii.eqb_eq in Hx. subst c.
    destruct (Clean_rooted_shape rest) as (es & Hes & ->).
    destruct (join_solid_props es Hes) as (H1 & H2 & H3).
    split; [|split; [|reflexivity]].
    + change (GoStrings.Index (String "/" (join_elems es)) "//")
        with (if Ascii.eqb "/" "/" && GoStrings.HasPrefix (join_elems es) "/"
              then Some 0
              else option_map S (GoStrings.Index (join_elems es) "//")).
      rewrite H1, H3. reflexivity.
    + destruct (join_elems es) as [|d j] eqn:E; [reflexivity|].
      change (String "/" (String d j)) with ("/" ++ String d j).
      rewrite HasSuffixByte_app by discriminate. congruence.
  - destruct (Clean_relative_tidy x Hx) as (H1 & H2 & H3).
    split; [exact H3|]. split; [congruence | exact H1].
Qed.

(** ** Claims about [Join] and [Append] *)

(** Claim C2, as stated, fails on the repository's own test case with an
    empty key: [Join] gives the bucket alone, without the separator. *)
Lemma Join_empty_key_counterexample :
  S3.Join (S3.mkPath "test_bucket" EmptyString) <>
  GoStrings.Trim "test_bucket" "/" ++ String "/" (GoStrings.Trim EmptyString "/").
Proof. vm_compute. discriminate. Qed.

(** Claim C2, amended: for every Path whose trimmed Bucket and trimmed Key
    are both non-empty and made of plain elements (no empty, [.] or [..]
    element between their separators), [Join] is the trimmed Bucket, one
    separator, and the trimmed Key. *)
Theorem Join_trimmed_parts (p : S3.Path) :
  plain_path (GoStrings.Trim (S3.Bucket p) "/") = true ->
  plain_path (GoStrings.Trim (S3.Key p) "/") = true ->
  S3.Join p =
  GoStrings.Trim (S3.Bucket p) "/" ++ String "/" (GoStrings.Trim (S3.Key p) "/").
Proof.
  intros Hb Hk. unfold S3.Join. rewrite Join_pair.
  destruct (GoStrings.Trim (S3.Bucket p) "/") as [|c tb] eqn:Eb; [discriminate|].
  apply Clean_plain_path. rewrite plain_path_app_sep, Hb, Hk. reflexivity.
Qed.

Lemma Join_trimmed_parts_witness :
  plain_path (GoStrings.Trim "/test_bucket/" "/") = true /\
  plain_path (GoStrings.Trim "/test_dir//" "/") = true /\
  S3.Join (S3.mkPath "/test_bucket/" "/test_dir//") = "test_bucket/test_dir".
Proof.
  split; [reflexivity|]. split; [reflexivity|].
  exact (Join_trimmed_parts (S3.mkPath "/test_bucket/" "/test_dir//")
           eq_refl eq_refl).
Defined.

(** Claim C8: for every Path, [Join] neither begins nor ends with the
    separator and never holds two separators in a row. *)
Theorem Join_separators (p : S3.Path) :
  GoStrings.HasPrefix (S3.Join p) "/" = false /\
  GoStrings.HasSuffixByte (S3.Join p) "/" = false /\
  GoStrings.Index (S3.Join p) "//" = None.
Proof.
  destruct (S3_Join_cases p) as [-> | (x & Hx & ->)]; [repeat split|].
  apply Clean_relative_tidy, Hx.
Qed.

(** Claim C10, as stated, fails when the one field that is not empty holds
    two separators in a row: [Join] cleans them, so the result is not the
    trimmed field. *)
Lemma Join_empty_key_cleans_counterexample :
  S3.Join (S3.mkPath "a//b" EmptyString) <> GoStrings.Trim "a//b" "/".
Proof. vm_compute. discriminate. Qed.

(** Claim C10, amended: with the other field empty, [Join] is [path.Clean]
    of the trimmed field, or empty when the trimmed field is empty; no
    separator is added at either end; and it is the trimmed field itself
    when that is empty or made of plain elements. *)
Theorem Join_empty_field (s : string) :
  S3.Join (S3.mkPath s EmptyString) =
    match GoStrings.Trim s "/" with
    | EmptyString => EmptyString
    | t => GoPath.Clean t
    end /\
  S3.Join (S3.mkPath EmptyString s) = S3.Join (S3.mkPath s EmptyString) /\
  GoStrings.HasSuffixByte (S3.Join (S3.mkPath s EmptyString)) "/" = false /\
  GoStrings.HasPrefix (S3.Join (S3.mkPath EmptyString s)) "/" = false /\
  (GoStrings.Trim s "/" = EmptyString \/ plain_path (GoStrings.Trim s "/") = true ->
   S3.Join (S3.mkPath s EmptyString) = GoStrings.Trim s "/" /\
   S3.Join (S3.mkPath EmptyString s) = GoStrings.Trim s "/").
Proof.
  assert (H1 : S3.Join (S3.mkPath s EmptyString) =
               match GoStrings.Trim s "/" with
               | EmptyString => EmptyString
               | t => GoPath.Clean t
               end).
  { unfold S3.Join. cbn [S3.Bucket S3.Key]. rewrite Join_pair.
    change (GoStrings.Trim EmptyString "/") with EmptyString.
    pose proof (Trim_no_prefix s) as Hrel.
    destruct (GoStrings.Trim s "/") as [|c t]; [reflexivity|].
    apply (Clean_app_sep_nil (String c t)); [discriminate | exact Hrel]. }
  assert (H2 : S3.Join (S3.mkPath EmptyString s) =
               S3.Join (S3.mkPath s EmptyString)).
  { rewrite H1. unfold S3.Join. cbn [S3.Bucket S3.Key]. rewrite Join_pair.
    change (GoStrings.Trim EmptyString "/") with EmptyString.
    destruct (GoStrings.Trim s "/"); reflexivity. }
  split; [exact H1|]. split; [exact H2|].
  split.
  { destruct (S3_Join_cases (S3.mkPath s EmptyString)) as [-> | (x & Hx & ->)];
      [reflexivity | apply Clean_relative_tidy, Hx]. }
  split.
  { destruct (S3_Join_cases (S3.mkPath EmptyString s)) as [-> | (x & Hx & ->)];
      [reflexivity | apply Clean_relative_tidy, Hx]. }
  intros H. rewrite H2, H1.
  destruct H as [-> | H]; [split; reflexivity|].
  rewrite <- (Clean_plain_path _ H) at 2 4.
  destruct (GoStrings.Trim s "/"); [discriminate H | split; reflexivity].
Qed.

Lemma Join_empty_field_witness :
  S3.Join (S3.mkPath "/test_bucket/" EmptyString) = "test_bucket" /\
  S3.Join (S3.mkPath EmptyString "/test_bucket/") = "test_bucket" /\
  S3.Join (S3.mkPath EmptyString EmptyString) = EmptyString.
Proof.
  destruct (Join_empty_field "/test_bucket/") as (_ & _ & _ & _ & H).
  destruct (H (or_intror eq_refl)) as [H1 H2].
  split; [exact H1|]. split; [exact H2|].
  destruct (Join_empty_field EmptyString) as (_ & _ & _ & _ & H0).
  exact (proj1 (H0 (or_introl eq_refl))).
Defined.

(** Claim C6, as stated, fails when the key of the path begins with a
    separator: [Append] keeps it, where [Join] would trim it. *)
Lemma Append_leading_separator_counterexample :
  S3.Key (S3.Append (S3.mkPath "b" "/k") "s") <> S3.Join (S3.mkPath "/k" "s").
Proof. vm_compute. discriminate. Qed.

(** Claim C6, amended: for every Path and suffix, [Append] keeps the Bucket
    and its Key is the [path.Join] of the old key and the suffix.  That Key
    begins with a separator exactly when the first non-empty one of the old
    key and the suffix does: [Append] does not trim a leading separator.
    When it does not begin with one, the Key is what [Join] makes of the two
    parts, each trimmed of its leading and trailing separators and the two
    joined with a single separator. *)
Theorem Append_joins_key (p : S3.Path) (suffix : string) :
  S3.Bucket (S3.Append p suffix) = S3.Bucket p /\
  S3.Key (S3.Append p suffix) = GoPath.Join [S3.Key p; suffix] /\
  GoStrings.HasPrefix (S3.Key (S3.Append p suffix)) "/"
    = GoStrings.HasPrefix (S3.Key p ++ suffix) "/" /\
  (GoStrings.HasPrefix (S3.Key p ++ suffix) "/" = false ->
   S3.Key (S3.Append p suffix) = S3.Join (S3.mkPath (S3.Key p) suffix)).
Proof.
  split; [reflexivity|]. split; [reflexivity|]. split.
  - unfold S3.Append. cbn [S3.Key]. rewrite Join_pair.
    destruct (S3.Key p) as [|c k].
    + destruct suffix as [|d s]; [reflexivity|].
      apply (Clean_tidy (String d s)).
    + destruct (Clean_tidy (String c k ++ String "/" suffix)) as (_ & _ & H).
      rewrite H. reflexivity.
  - intros H. unfold S3.Append, S3.Join. cbn [S3.Bucket S3.Key].
    apply Join_pair_Trim, H.
Qed.

Lemma Append_joins_key_witness :
  S3.Bucket (S3.Append (S3.mkPath "/test_bucket" "test_dir/") "/test_key/")
    = "/test_bucket" /\
  S3.Key (S3.Append (S3.mkPath "/test_bucket" "test_dir/") "/test_key/")
    = S3.Join (S3.mkPath "test_dir/" "/test_key/") /\
  S3.Key (S3.Append (S3.mkPath "/test_bucket" "test_dir/") "/test_key/")
    = "test_dir/test_key" /\
  GoStrings.HasPrefix (S3.Key (S3.Append (S3.mkPath "b" "/k") "s")) "/" = true.
Proof.
  destruct (Append_joins_key (S3.mkPath "/test_bucket" "test_dir/") "/test_key/")
    as (H1 & _ & _ & H4).
  split; [exact H1|]. split; [exact (H4 eq_refl)|]. split; [reflexivity|].
  exact (proj1 (proj2 (proj2 (Append_joins_key (S3.mkPath "b" "/k") "s")))).
Defined.

(** ** Bytes of a URI *)

Ltac byte_cases c := destruct c as [[|] [|] [|] [|] [|] [|] [|] [|]].

Lemma uri_byte_facts c : uri_byte c = true ->
  Ascii.eqb c "#" = false /\ Ascii.eqb c "?" = false /\
  byte_lt c " " = false /\ Ascii.eqb c (ascii_of_nat 127) = false.
Proof.
  byte_cases c; vm_compute; intros H; try discriminate H; repeat split.
Qed.

Lemma upperhex_facts c :
  NetURL.ishex (NetURL.upperhex (nat_of_ascii c / 16)) = true /\
  NetURL.ishex (NetURL.upperhex (nat_of_ascii c mod 16)) = true /\
  NetURL.unhex2 (NetURL.upperhex (nat_of_ascii c / 16))
                (NetURL.upperhex (nat_of_ascii c mod 16)) = c /\
  uri_byte (NetURL.upperhex (nat_of_ascii c / 16)) = true /\
  uri_byte (NetURL.upperhex (nat_of_ascii c mod 16)) = true.
Proof. byte_cases c; vm_compute; repeat split. Qed.

Lemma path_safe_facts c : path_safe c = true ->
  Ascii.eqb c "%" = false /\ uri_byte c = true.
Proof.
  byte_cases c; vm_compute; intros H; try discriminate H; repeat split.
Qed.

Lemma host_safe_facts c : host_safe c = true ->
  path_safe c = true /\ NetURL.shouldEscape c NetURL.encodeHost = false /\
  Ascii.eqb c "/" = false /\ Ascii.eqb c "@" = false /\
  Ascii.eqb c "[" = false /\ Ascii.eqb c ":" = false /\
  Ascii.eqb c "%" = false /\ Ascii.eqb c "*" = false.
Proof.
  byte_cases c; vm_compute; intros H; try discriminate H; repeat split.
Qed.

Lemma space_escaped_in_query c mode :
  Ascii.eqb c " " && NetURL.mode_is_query mode = true ->
  NetURL.shouldEscape c mode = true.
Proof.
  intros H. apply andb_true_iff in H as [Hc Hm].
  apply Ascii.eqb_eq in Hc. subst c.
  destruct mode; try discriminate Hm. reflexivity.
Qed.

(** ** Bytes of a string *)

Lemma all_bytes_app f a b :
  all_bytes f (a ++ b) = all_bytes f a && all_bytes f b.
Proof.
  induction a as [|c a IH]; [reflexivity|].
  cbn [append all_bytes]. rewrite IH. apply andb_assoc.
Qed.

Lemma all_bytes_impl (f g : ascii -> bool) s :
  (forall c, f c = true -> g c = true) ->
  all_bytes f s = true -> all_bytes g s = true.
Proof.
  intros Hfg. induction s as [|c s IH]; [reflexivity|].
  cbn [all_bytes]. intros H. apply andb_true_iff in H as [Hc Hs].
  rewrite (Hfg c Hc), (IH Hs). reflexivity.
Qed.

Lemma byte_in_absent (f : ascii -> bool) x s :
  (forall c, f c = true -> Ascii.eqb c x = false) ->
  all_bytes f s = true -> byte_in x s = false.
Proof.
  intros Hf. induction s as [|c s IH]; [reflexivity|].
  cbn [all_bytes byte_in]. intros H. apply andb_true_iff in H as [Hc Hs].
  rewrite Ascii.eqb_sym, (Hf c Hc), (IH Hs). reflexivity.
Qed.

Lemma CutByte_absent s c : byte_in c s = false ->
  GoStrings.CutByte s c = (s, EmptyString, false).
Proof.
  induction s as [|a s IH]; [reflexivity|].
  cbn [byte_in GoStrings.CutByte]. intros H.
  apply orb_false_iff in H as [Ha Hs].
  rewrite Ascii.eqb_sym, Ha, (IH Hs). reflexivity.
Qed.

Lemma CountByte_absent s c : byte_in c s = false -> GoStrings.CountByte s c = 0.
Proof.
  induction s as [|a s IH]; [reflexivity|].
  cbn [byte_in GoStrings.CountByte]. intros H.
  apply orb_false_iff in H as [Ha Hs].
  rewrite Ascii.eqb_sym, Ha, (IH Hs). reflexivity.
Qed.

Lemma LastIndexByte_absent s c : byte_in c s = false ->
  GoStrings.LastIndexByte s c = None.
Proof.
  induction s as [|a s IH]; [reflexivity|].
  cbn [byte_in GoStrings.LastIndexByte]. intros H.
  apply orb_false_iff in H as [Ha Hs].
  rewrite Ascii.eqb_sym, Ha, (IH Hs). reflexivity.
Qed.

Lemma Index_sep_absent s : no_sep s = true -> GoStrings.Index s "/" = None.
Proof.
  induction s as [|a s IH]; [reflexivity|].
  intros H. apply no_sep_cons in H as [Ha Hs].
  cbn [GoStrings.Index GoStrings.HasPrefix].
  apply Ascii.eqb_neq in Ha. rewrite Ha, (IH Hs). reflexivity.
Qed.

Lemma Index_sep_app a b : no_sep a = true ->
  GoStrings.Index (a ++ String "/" b) "/" = Some (String.length a).
Proof.
  induction a as [|c a IH]; [reflexivity|].
  intros H. apply no_sep_cons in H as [Hc Ha].
  cbn [append GoStrings.Index GoStrings.HasPrefix].
  apply Ascii.eqb_neq in Hc. rewrite Hc, (IH Ha). reflexivity.
Qed.

Lemma take_app_length a b : take (String.length a) (a ++ b) = a.
Proof. induction a as [|c a IH]; [destruct b; reflexivity|]. simpl. congruence. Qed.

Lemma drop_app_length a b : drop (String.length a) (a ++ b) = b.
Proof. induction a as [|c a IH]; [reflexivity|]. simpl. exact IH. Qed.

(** ** [escape] and [unescape] *)

Lemma escape_build_clean s mode :
  NetURL.escape_count s mode = (0, 0) -> NetURL.escape_build s mode = s.
Proof.
  induction s as [|c s IH]; [reflexivity|].
  cbn [NetURL.escape_count NetURL.escape_build].
  destruct (NetURL.escape_count s mode) as [sc hc].
  destruct (NetURL.shouldEscape c mode) eqn:E.
  - destruct (Ascii.eqb c " " && NetURL.mode_is_query mode); discriminate.
  - intros H.
    destruct (Ascii.eqb c " " && NetURL.mode_is_query mode) eqn:Eq.
    + rewrite (space_escaped_in_query _ _ Eq) in E. discriminate.
    + rewrite (IH H). reflexivity.
Qed.

(** [escape] returns what its second loop builds, also when it returns
    early because nothing needs escaping. *)
Lemma escape_eq_build s mode : NetURL.escape s mode = NetURL.escape_build s mode.
Proof.
  unfold NetURL.escape.
  destruct (NetURL.escape_count s mode) as [[|sc] [|hc]] eqn:E; try reflexivity.
  symmetry. apply escape_build_clean, E.
Qed.

Lemma escape_build_app a b mode :
  NetURL.escape_build (a ++ b) mode =
  NetURL.escape_build a mode ++ NetURL.escape_build b mode.
Proof.
  induction a as [|c a IH]; [reflexivity|].
  cbn [append NetURL.escape_build]. rewrite IH.
  destruct (Ascii.eqb c " " && NetURL.mode_is_query mode); [reflexivity|].
  destruct (NetURL.shouldEscape c mode); reflexivity.
Qed.

Lemma escape_build_safe s :
  all_bytes path_safe s = true -> NetURL.escape_build s NetURL.encodePath = s.
Proof.
  induction s as [|c s IH]; [reflexivity|].
  cbn [all_bytes NetURL.escape_build NetURL.mode_is_query]. intros H.
  apply andb_true_iff in H as [Hc Hs]. unfold path_safe in Hc.
  apply negb_true_iff in Hc. rewrite andb_false_r, Hc, (IH Hs). reflexivity.
Qed.

Lemma escape_build_uri_bytes s :
  all_bytes uri_byte (NetURL.escape_build s NetURL.encodePath) = true.
Proof.
  induction s as [|c s IH]; [reflexivity|].
  cbn [NetURL.escape_build NetURL.mode_is_query]. rewrite andb_false_r.
  destruct (NetURL.shouldEscape c NetURL.encodePath) eqn:E; cbn [all_bytes].
  - destruct (upperhex_facts c) as (_ & _ & _ & H1 & H2).
    rewrite H1, H2, IH. reflexivity.
  - rewrite IH, andb_true_r. apply path_safe_facts.
    unfold path_safe. rewrite E. reflexivity.
Qed.

(** The first loop of [unescape] accepts what [escape] wrote. *)
Lemma unescape_scan_escaped s : forall n,
  exists n', NetURL.unescape_scan (NetURL.escape_build s NetURL.encodePath)
               NetURL.encodePath n false = inr (n', false).
Proof.
  induction s as [|c s IH]; intros n; [exists n; reflexivity|].
  cbn [NetURL.escape_build NetURL.mode_is_query]. rewrite andb_false_r.
  destruct (NetURL.shouldEscape c NetURL.encodePath) eqn:E.
  - destruct (upperhex_facts c) as (H1 & H2 & _).
    cbn [NetURL.unescape_scan]. rewrite Ascii.eqb_refl, H1, H2.
    cbn [negb orb andb]. apply IH.
  - assert (Hp : path_safe c = true) by (unfold path_safe; rewrite E; reflexivity).
    destruct (path_safe_facts c Hp) as [Hpc _].
    cbn [NetURL.unescape_scan]. rewrite Hpc.
    destruct (Ascii.eqb c "+"); cbn [NetURL.mode_is_query NetURL.is_host_mode andb];
      apply IH.
Qed.

(** The second loop of [unescape] undoes the second loop of [escape]. *)
Lemma unescape_build_escaped s :
  NetURL.unescape_build (NetURL.escape_build s NetURL.encodePath)
    NetURL.encodePath = s.
Proof.
  induction s as [|c s IH]; [reflexivity|].
  cbn [NetURL.escape_build NetURL.mode_is_query]. rewrite andb_false_r.
  destruct (NetURL.shouldEscape c NetURL.encodePath) eqn:E.
  - destruct (upperhex_facts c) as (_ & _ & H & _).
    cbn [NetURL.unescape_build]. rewrite Ascii.eqb_refl, H, IH. reflexivity.
  - assert (Hp : path_safe c = true) by (unfold path_safe; rewrite E; reflexivity).
    destruct (path_safe_facts c Hp) as [Hpc _].
    cbn [NetURL.unescape_build]. rewrite Hpc, IH.
    destruct (Ascii.eqb_spec c "+") as [->|]; reflexivity.
Qed.

Lemma unescape_scan_count s mode : NetURL.mode_is_query mode = false ->
  forall n h n' h', NetURL.unescape_scan s mode n h = inr (n', h') ->
  n <= n' /\ (n' = n -> NetURL.unescape_build s mode = s).
Proof.
  intros Hm.
  remember (String.length s) as k eqn:Hk.
  revert s Hk. induction k as [k IH] using lt_wf_ind. intros s -> n h n' h'.
  destruct s as [|c s]; [intros [= <- <-]; auto|].
  cbn [NetURL.unescape_scan NetURL.unescape_build].
  destruct (Ascii.eqb c "%") eqn:Ec.
  - destruct s as [|h1 [|h2 s3]]; try discriminate.
    destruct (negb (NetURL.ishex h1) || negb (NetURL.ishex h2)); [discriminate|].
    match goal with |- (if ?b then _ else _) = _ -> _ => destruct b end;
      [discriminate|].
    match goal with |- (if ?b then _ else _) = _ -> _ => destruct b end;
      [discriminate|].
    intros H.
    destruct (IH (String.length s3) ltac:(simpl; lia) s3 eq_refl _ _ _ _ H) as [Hle _].
    split; lia.
  - destruct (Ascii.eqb c "+") eqn:Ep.
    + intros H.
      destruct (IH (String.length s) ltac:(simpl; lia) s eq_refl _ _ _ _ H)
        as [Hle Heq].
      split; [exact Hle|]. intros Hn. rewrite (Heq Hn), Hm.
      apply Ascii.eqb_eq in Ep. subst c. reflexivity.
    + match goal with |- (if ?b then _ else _) = _ -> _ => destruct b end;
        [discriminate|].
      intros H.
      destruct (IH (String.length s) ltac:(simpl; lia) s eq_refl _ _ _ _ H)
        as [Hle Heq].
      split; [exact Hle|]. intros Hn. rewrite (Heq Hn). reflexivity.
Qed.

(** Outside query components, what [unescape] returns is what its second
    loop builds, also when it returns early. *)
Lemma unescape_eq_build s mode r : NetURL.mode_is_query mode = false ->
  NetURL.unescape s mode = inr r -> r = NetURL.unescape_build s mode.
Proof.
  intros Hm. unfold NetURL.unescape.
  destruct (NetURL.unescape_scan s mode 0 false) as [e | [n h]] eqn:E;
    [discriminate|].
  destruct (unescape_scan_count s mode Hm _ _ _ _ E) as [_ H].
  destruct n as [|n]; [destruct h|]; intros [= <-]; try reflexivity.
  symmetry. apply H. reflexivity.
Qed.

Lemma unescape_escaped s :
  NetURL.unescape (NetURL.escape_build s NetURL.encodePath) NetURL.encodePath
  = inr s.
Proof.
  destruct (unescape_scan_escaped s 0) as [n' Hn'].
  destruct (NetURL.unescape (NetURL.escape_build s NetURL.encodePath)
              NetURL.encodePath) as [e | r] eqn:E.
  - unfold NetURL.unescape in E. rewrite Hn' in E. destruct n'; discriminate.
  - rewrite (unescape_eq_build _ NetURL.encodePath _ eq_refl E),
      unescape_build_escaped.
    reflexivity.
Qed.

Lemma unescape_scan_host_safe s : all_bytes host_safe s = true -> forall n,
  NetURL.unescape_scan s NetURL.encodeHost n false = inr (n, false).
Proof.
  induction s as [|c s IH]; intros H n; [reflexivity|].
  cbn [all_bytes] in H. apply andb_true_iff in H as [Hc Hs].
  destruct (host_safe_facts c Hc) as (_ & Hh & _ & _ & _ & _ & Hp & _).
  cbn [NetURL.unescape_scan]. rewrite Hp, Hh, andb_false_r.
  destruct (Ascii.eqb c "+"); cbn [NetURL.mode_is_query]; apply IH, Hs.
Qed.

Lemma unescape_host_safe s : all_bytes host_safe s = true ->
  NetURL.unescape s NetURL.encodeHost = inr s.
Proof.
  intros H. unfold NetURL.unescape.
  rewrite (unescape_scan_host_safe s H 0). reflexivity.
Qed.

(** ** [ToURI] *)

Lemma ToURI_escaped (p : S3.Path) : S3.Join p <> EmptyString ->
  S3.ToURI p =
  "s3://" ++ (if String.eqb (S3.Join p) "*" then "*"
              else NetURL.escape (S3.Join p) NetURL.encodePath).
Proof.
  intros Hne. unfold S3.ToURI. rewrite parse_s3_scheme.
  destruct (S3.Join p) as [|c J]; [congruence|].
  unfold NetURL.URL_String, NetURL.set_Path, NetURL.EscapedPath.
  cbn [NetURL.Scheme NetURL.Opaque NetURL.User NetURL.Host NetURL.Path
       NetURL.RawPath NetURL.OmitHost NetURL.ForceQuery NetURL.RawQuery
       NetURL.Fragment NetURL.RawFragment].
  generalize (if String.eqb (String c J) "*" then "*"
              else NetURL.escape (String c J) NetURL.encodePath).
  intros path. cbn. rewrite andb_false_r. cbn [append].
  rewrite append_nil_r. reflexivity.
Qed.

(** ** [Parse] on what [ToURI] writes *)

Lemma host_safe_no_sep B : all_bytes host_safe B = true -> no_sep B = true.
Proof.
  intros H. unfold no_sep. apply negb_true_iff.
  apply (byte_in_absent host_safe); [|exact H].
  intros c Hc. apply host_safe_facts, Hc.
Qed.

Lemma host_safe_uri_bytes B :
  all_bytes host_safe B = true -> all_bytes uri_byte B = true.
Proof.
  apply all_bytes_impl. intros c Hc.
  apply path_safe_facts, host_safe_facts, Hc.
Qed.

Lemma host_safe_path_safe B :
  all_bytes host_safe B = true -> all_bytes path_safe B = true.
Proof. apply all_bytes_impl. intros c Hc. apply host_safe_facts, Hc. Qed.

Lemma CTL_absent s : all_bytes uri_byte s = true ->
  NetURL.stringContainsCTLByte s = false.
Proof.
  induction s as [|c s IH]; [reflexivity|].
  cbn [all_bytes NetURL.stringContainsCTLByte]. intros H.
  apply andb_true_iff in H as [Hc Hs].
  destruct (uri_byte_facts c Hc) as (_ & _ & H1 & H2).
  rewrite H1, H2, (IH Hs). reflexivity.
Qed.

Lemma splitQuery_absent r : byte_in "?" r = false ->
  NetURL.splitQuery r = (r, false, EmptyString).
Proof.
  intros H. unfold NetURL.splitQuery.
  rewrite (CountByte_absent _ _ H), (CutByte_absent _ _ H), andb_false_r.
  reflexivity.
Qed.

Lemma parseHost_safe B : all_bytes host_safe B = true ->
  NetURL.parseHost B = inr B.
Proof.
  intros H. unfold NetURL.parseHost.
  assert (Hb : GoStrings.HasPrefix B "[" = false).
  { destruct B as [|c B]; [reflexivity|].
    cbn [all_bytes] in H. apply andb_true_iff in H as [Hc _].
    cbn [GoStrings.HasPrefix]. rewrite andb_true_r.
    apply host_safe_facts, Hc. }
  rewrite Hb, LastIndexByte_absent.
  - apply unescape_host_safe, H.
  - apply (byte_in_absent host_safe); [|exact H].
    intros c Hc. apply host_safe_facts, Hc.
Qed.

Lemma parseAuthority_safe B : all_bytes host_safe B = true ->
  NetURL.parseAuthority B = inr (None, B).
Proof.
  intros H. unfold NetURL.parseAuthority.
  rewrite LastIndexByte_absent, (parseHost_safe B H); [reflexivity|].
  apply (byte_in_absent host_safe); [|exact H].
  intros c Hc. apply host_safe_facts, Hc.
Qed.

Lemma splitAuthority_built B T : all_bytes host_safe B = true ->
  (T = EmptyString \/ exists r, T = String "/" r) ->
  NetURL.splitAuthority "s3" false ("//" ++ B ++ T) = inr (None, B, false, T).
Proof.
  intros HB HT. unfold NetURL.splitAuthority.
  change (drop 2 ("//" ++ B ++ T)) with (B ++ T).
  change (GoStrings.HasPrefix ("//" ++ B ++ T) "//") with true.
  cbn [NetURL.nonempty String.eqb negb orb andb].
  pose proof (host_safe_no_sep B HB) as Hno.
  destruct HT as [-> | [r ->]].
  - rewrite append_nil_r, (Index_sep_absent B Hno), (parseAuthority_safe B HB).
    reflexivity.
  - rewrite (Index_sep_app B r Hno), take_app_length, drop_app_length,
      (parseAuthority_safe B HB).
    reflexivity.
Qed.

Lemma setPath_escaped T0 :
  exists raw, NetURL.setPath (NetURL.escape_build T0 NetURL.encodePath)
              = inr (T0, raw).
Proof.
  unfold NetURL.setPath. rewrite unescape_escaped.
  match goal with |- context [if ?b then _ else _] => destruct b end; eauto.
Qed.

Lemma escape_build_rooted K :
  NetURL.escape_build (String "/" K) NetURL.encodePath =
  String "/" (NetURL.escape_build K NetURL.encodePath).
Proof. reflexivity. Qed.

Lemma built_uri_bytes B T0 : all_bytes host_safe B = true ->
  all_bytes uri_byte ("s3://" ++ B ++ NetURL.escape_build T0 NetURL.encodePath)
  = true.
Proof.
  intros HB.
  change ("s3://" ++ B ++ NetURL.escape_build T0 NetURL.encodePath)
    with ("s3://" ++ (B ++ NetURL.escape_build T0 NetURL.encodePath)).
  rewrite !all_bytes_app, (host_safe_uri_bytes B HB), escape_build_uri_bytes.
  reflexivity.
Qed.

Lemma parse_built B T0 : all_bytes host_safe B = true ->
  (T0 = EmptyString \/ exists K, T0 = String "/" K) ->
  exists raw,
    NetURL.parse ("s3://" ++ B ++ NetURL.escape_build T0 NetURL.encodePath) false
    = inr (NetURL.mkURL "s3" EmptyString None B T0 raw false false
                        EmptyString EmptyString EmptyString).
Proof.
  intros HB HT0.
  pose proof (built_uri_bytes B T0 HB) as Hbytes.
  destruct (setPath_escaped T0) as [raw Hraw]. exists raw.
  unfold NetURL.parse.
  rewrite (CTL_absent _ Hbytes), andb_false_r.
  change (String.eqb ("s3://" ++ B ++ NetURL.escape_build T0 NetURL.encodePath) "*")
    with false.
  change (NetURL.getScheme ("s3://" ++ B ++ NetURL.escape_build T0 NetURL.encodePath))
    with (@inr NetURL.parse_error _
            ("s3", "//" ++ B ++ NetURL.escape_build T0 NetURL.encodePath)).
  cbv beta iota zeta.
  change (GoStrings.ToLowerASCII "s3") with "s3".
  rewrite splitQuery_absent.
  2:{ apply (byte_in_absent uri_byte); [intros c Hc; apply uri_byte_facts, Hc|].
      exact Hbytes. }
  change (GoStrings.HasPrefix ("//" ++ B ++ NetURL.escape_build T0 NetURL.encodePath) "/")
    with true.
  cbn [negb andb].
  rewrite splitAuthority_built, Hraw; [reflexivity | exact HB |].
  destruct HT0 as [-> | [K ->]]; [left; reflexivity|].
  right. rewrite escape_build_rooted. eauto.
Qed.

Lemma Parse_built B T0 : all_bytes host_safe B = true ->
  (T0 = EmptyString \/ exists K, T0 = String "/" K) ->
  exists raw,
    NetURL.Parse ("s3://" ++ B ++ NetURL.escape_build T0 NetURL.encodePath)
    = inr (NetURL.mkURL "s3" EmptyString None B T0 raw false false
                        EmptyString EmptyString EmptyString).
Proof.
  intros HB HT0. destruct (parse_built B T0 HB HT0) as [raw Hraw].
  exists raw. unfold NetURL.Parse.
  rewrite CutByte_absent, Hraw; [reflexivity|].
  apply (byte_in_absent uri_byte); [intros c Hc; apply uri_byte_facts, Hc|].
  apply built_uri_bytes, HB.
Qed.

Lemma FromURI_built B T0 : B <> EmptyString -> all_bytes host_safe B = true ->
  (T0 = EmptyString \/ exists K, T0 = String "/" K) ->
  S3.FromURI ("s3://" ++ B ++ NetURL.escape_build T0 NetURL.encodePath)
  = (S3.mkPath B (drop 1 T0), None).
Proof.
  intros HB Hsafe HT0. destruct (Parse_built B T0 Hsafe HT0) as [raw Hraw].
  unfold S3.FromURI. rewrite Hraw.
  cbn [NetURL.Scheme NetURL.Host NetURL.Path].
  change (String.eqb "s3" "s3") with true. cbn [negb orb].
  destruct B as [|b B]; [congruence|]. cbn [String.length Nat.eqb].
  destruct HT0 as [-> | [[|k K] ->]]; reflexivity.
Qed.

(** ** Paths that [Join] leaves as they are *)

Lemma trimLeftByte_id s :
  GoStrings.HasPrefix s "/" = false -> GoStrings.trimLeftByte s "/" = s.
Proof.
  destruct s as [|c s]; [reflexivity|].
  cbn [GoStrings.HasPrefix GoStrings.trimLeftByte]. rewrite andb_true_r.
  intros ->. reflexivity.
Qed.

Lemma trimRightByte_id s :
  GoStrings.HasSuffixByte s "/" = false -> GoStrings.trimRightByte s "/" = s.
Proof.
  induction s as [|c s IH]; [reflexivity|].
  cbn [GoStrings.HasSuffixByte GoStrings.trimRightByte].
  destruct s as [|d s]; [intros ->; reflexivity|].
  intros H. rewrite (IH H). reflexivity.
Qed.

Lemma plain_path_solid s : plain_path s = true ->
  Forall (fun e => solid e = true) (elements s).
Proof.
  unfold plain_path. intros H.
  pose proof (elements_all_no_sep s) as Hno.
  induction Hno as [|e l He _ IH]; [constructor|].
  cbn [forallb] in H. apply andb_true_iff in H as [Hp Hl].
  constructor; [apply plain_solid; assumption | apply IH, Hl].
Qed.

Lemma Trim_plain_path s : plain_path s = true -> GoStrings.Trim s "/" = s.
Proof.
  intros H.
  destruct (join_solid_props _ (plain_path_solid s H)) as (Hpre & Hsuf & _).
  rewrite join_elements in Hpre, Hsuf.
  destruct s as [|c s]; [reflexivity|].
  unfold GoStrings.Trim.
  rewrite (trimRightByte_id _ Hsuf). apply trimLeftByte_id, Hpre.
Qed.

(** A Path with a Bucket and a Key of plain elements, or with such a Bucket
    and no Key, is in the form that [Join] produces. *)
Lemma Join_canonical (p : S3.Path) :
  plain_path (S3.Bucket p) = true ->
  S3.Key p = EmptyString \/ plain_path (S3.Key p) = true ->
  S3.Join p = canonical p.
Proof.
  destruct p as [B K]. unfold canonical, S3.Join. cbn [S3.Bucket S3.Key].
  intros HB HK. rewrite Join_pair, (Trim_plain_path B HB).
  destruct (plain_path_relative B HB) as [Hne Hrel].
  destruct B as [|b B]; [congruence|].
  destruct HK as [-> | HK].
  - change (GoStrings.Trim EmptyString "/") with EmptyString.
    rewrite (Clean_app_sep_nil (String b B) Hne Hrel).
    apply Clean_plain_path, HB.
  - rewrite (Trim_plain_path K HK).
    rewrite Clean_plain_path by (rewrite plain_path_app_sep, HB, HK; reflexivity).
    destruct K; [discriminate HK | reflexivity].
Qed.

(** A bucket alone and a bucket followed by one separator are read alike. *)
Lemma FromURI_root_path (B : string) :
  B <> EmptyString -> all_bytes host_safe B = true ->
  S3.FromURI ("s3://" ++ B) = (S3.mkPath B EmptyString, None) /\
  S3.FromURI ("s3://" ++ B ++ "/") = (S3.mkPath B EmptyString, None).
Proof.
  intros HB Hsafe. split.
  - pose proof (FromURI_built B EmptyString HB Hsafe (or_introl eq_refl)) as H.
    cbn [NetURL.escape_build drop] in H. rewrite append_nil_r in H. exact H.
  - exact (FromURI_built B "/" HB Hsafe (or_intror (ex_intro _ EmptyString eq_refl))).
Qed.

(** ** Claims about [ToURI] and [FromURI] *)

(** Claim C1, as stated, fails for a bucket with a leading separator:
    [ToURI] trims it and [FromURI] cannot give it back. *)
Lemma round_trip_counterexample :
  S3.Bucket (S3.mkPath "/b" "k") <> EmptyString /\
  S3.FromURI (S3.ToURI (S3.mkPath "/b" "k")) <> (S3.mkPath "/b" "k", None).
Proof. split; [discriminate|]. vm_compute. discriminate. Qed.

(** A bucket with a byte that the path escaping changes does not come back
    either: the escaped byte is not accepted in a host. *)
Example round_trip_escaped_bucket :
  S3.FromURI (S3.ToURI (S3.mkPath "a b" "k")) =
  (S3.zeroPath,
   Some (S3.URLError (NetURL.mkError "parse" "s3://a%20b/k"
                                     (NetURL.EscapeError "%20")))).
Proof. reflexivity. Qed.

(** Claim C1, amended: for every Path whose Bucket is non-empty and made of
    bytes that are written unescaped in a path and read back unescaped in a
    host (letters, digits and [-_.~$&+,;=]), and that [Join] leaves as it is
    ([Join] gives Bucket, separator, Key, or the Bucket alone when the Key is
    empty), [FromURI] of [ToURI] succeeds and returns the Path itself; with
    an empty Key that is a Path with an empty Key. *)
Theorem FromURI_ToURI_round_trip (p : S3.Path) :
  S3.Bucket p <> EmptyString ->
  all_bytes host_safe (S3.Bucket p) = true ->
  S3.Join p = canonical p ->
  S3.FromURI (S3.ToURI p) = (p, None).
Proof.
  destruct p as [B K]. unfold canonical. cbn [S3.Bucket S3.Key].
  intros HB Hsafe HJ.
  set (T0 := match K with EmptyString => EmptyString | _ => String "/" K end).
  assert (HT0 : T0 = EmptyString \/ exists r, T0 = String "/" r)
    by (unfold T0; destruct K; eauto).
  assert (HJ' : S3.Join (S3.mkPath B K) = B ++ T0).
  { rewrite HJ. unfold T0. destruct K; [rewrite append_nil_r|]; reflexivity. }
  assert (Hroot : all_bytes path_safe B = true) by (apply host_safe_path_safe, Hsafe).
  rewrite ToURI_escaped; rewrite HJ'.
  2:{ destruct B; [congruence | discriminate]. }
  assert (Hstar : String.eqb (B ++ T0) "*" = false).
  { destruct B as [|b B]; [congruence|].
    cbn [all_bytes] in Hsafe. apply andb_true_iff in Hsafe as [Hb _].
    destruct (host_safe_facts b Hb) as (_ & _ & _ & _ & _ & _ & _ & Hs).
    cbn [append String.eqb]. rewrite Hs. reflexivity. }
  rewrite Hstar, escape_eq_build, escape_build_app, (escape_build_safe B Hroot).
  rewrite (FromURI_built B T0 HB Hsafe HT0).
  unfold T0. destruct K; reflexivity.
Qed.

Lemma FromURI_ToURI_round_trip_witness :
  S3.FromURI (S3.ToURI (S3.mkPath "test_bucket" "dir one/key#1"))
  = (S3.mkPath "test_bucket" "dir one/key#1", None) /\
  S3.FromURI (S3.ToURI (S3.mkPath "test_bucket" EmptyString))
  = (S3.mkPath "test_bucket" EmptyString, None).
Proof.
  split.
  - apply (FromURI_ToURI_round_trip (S3.mkPath "test_bucket" "dir one/key#1"));
      [discriminate | reflexivity | reflexivity].
  - apply (FromURI_ToURI_round_trip (S3.mkPath "test_bucket" EmptyString));
      [discriminate | reflexivity | reflexivity].
Defined.


(** With an empty key [ToURI] does not always write the trimmed bucket as
    it is: the bucket is cleaned and escaped like any path. *)
Example ToURI_empty_key_cases :
  S3.ToURI (S3.mkPath "a//b" EmptyString) = "s3://a/b" /\
  S3.ToURI (S3.mkPath "a b" EmptyString) = "s3://a%20b".
Proof. split; reflexivity. Qed.



(** ** Host and path of a parsed URI *)

Lemma Index_Some_prefix s sub : forall i,
  GoStrings.Index s sub = Some i -> GoStrings.HasPrefix (drop i s) sub = true.
Proof.
  induction s as [|c s IH]; intros i; cbn [GoStrings.Index].
  - destruct (GoStrings.HasPrefix EmptyString sub) eqn:E; [|discriminate].
    intros [= <-]. exact E.
  - destruct (GoStrings.HasPrefix (String c s) sub) eqn:E.
    + intros [= <-]. exact E.
    + destruct (GoStrings.Index s sub) as [j|] eqn:Ej; [|discriminate].
      intros [= <-]. cbn [drop]. apply IH. reflexivity.
Qed.

(** When [parse] finds a host, what is left for the path is empty or begins
    with the separator. *)
Lemma splitAuthority_rest scheme viaRequest rest user host omitHost rest' :
  NetURL.splitAuthority scheme viaRequest rest = inr (user, host, omitHost, rest') ->
  host <> EmptyString ->
  rest' = EmptyString \/ GoStrings.HasPrefix rest' "/" = true.
Proof.
  unfold NetURL.splitAuthority.
  match goal with |- context [if ?b then _ else _] => destruct b end.
  - destruct (GoStrings.Index (drop 2 rest) "/") as [i|] eqn:Ei.
    + destruct (NetURL.parseAuthority (take i (drop 2 rest))) as [e|[u h]];
        [discriminate|].
      intros [= _ _ _ <-] _. right. apply (Index_Some_prefix _ _ _ Ei).
    + destruct (NetURL.parseAuthority (drop 2 rest)) as [e|[u h]];
        [discriminate|].
      intros [= _ _ _ <-] _. left. reflexivity.
  - match goal with |- context [if ?b then _ else _] => destruct b end;
      intros [= _ <- _ _] H; congruence.
Qed.

Lemma setPath_rooted rest path raw :
  NetURL.setPath rest = inr (path, raw) ->
  rest = EmptyString \/ GoStrings.HasPrefix rest "/" = true ->
  path = EmptyString \/ GoStrings.HasPrefix path "/" = true.
Proof.
  unfold NetURL.setPath.
  destruct (NetURL.unescape rest NetURL.encodePath) as [e|r] eqn:E; [discriminate|].
  apply (unescape_eq_build _ NetURL.encodePath _ eq_refl) in E.
  intros H Hrest.
  assert (Hp : path = r)
    by (destruct (String.eqb rest (NetURL.escape r NetURL.encodePath));
        congruence).
  subst path r. destruct Hrest as [-> | Hrest]; [left; reflexivity|].
  right. destruct rest as [|c rest]; [discriminate|].
  cbn [GoStrings.HasPrefix] in Hrest. rewrite andb_true_r in Hrest.
  apply Ascii.eqb_eq in Hrest. subst c. reflexivity.
Qed.

Lemma parse_host_path rawURL viaRequest u :
  NetURL.parse rawURL viaRequest = inr u -> NetURL.Host u <> EmptyString ->
  NetURL.Path u = EmptyString \/ GoStrings.HasPrefix (NetURL.Path u) "/" = true.
Proof.
  unfold NetURL.parse.
  destruct (NetURL.stringContainsCTLByte rawURL); [discriminate|].
  destruct (String.eqb rawURL EmptyString && viaRequest); [discriminate|].
  destruct (String.eqb rawURL "*"); [intros [= <-] H; exfalso; apply H; reflexivity|].
  destruct (NetURL.getScheme rawURL) as [e|[scheme0 rest0]]; [discriminate|].
  cbv zeta.
  destruct (NetURL.splitQuery rest0) as [[rest1 forceQuery] rawQuery].
  match goal with |- context [if ?b then _ else _] => destruct b end;
    [intros [= <-] H; exfalso; apply H; reflexivity|].
  match goal with |- context [if ?b then _ else _] => destruct b end;
    [discriminate|].
  match goal with |- context [if ?b then _ else _] => destruct b end;
    [discriminate|].
  destruct (NetURL.splitAuthority (GoStrings.ToLowerASCII scheme0) viaRequest rest1)
    as [e|[[[user host] omitHost] rest]] eqn:Ea; [discriminate|].
  destruct (NetURL.setPath rest) as [e|[path raw]] eqn:Ep; [discriminate|].
  intros [= <-]. cbn [NetURL.Host NetURL.Path]. intros Hhost.
  apply (setPath_rooted _ _ _ Ep).
  apply (splitAuthority_rest _ _ _ _ _ _ _ Ea Hhost).
Qed.

Lemma Parse_host_path uri u :
  NetURL.Parse uri = inr u -> NetURL.Host u <> EmptyString ->
  NetURL.Path u = EmptyString \/ GoStrings.HasPrefix (NetURL.Path u) "/" = true.
Proof.
  unfold NetURL.Parse.
  destruct (GoStrings.CutByte uri "#") as [[raw frag] found].
  destruct (NetURL.parse raw false) as [e|url] eqn:E; [discriminate|].
  destruct (String.eqb frag EmptyString).
  - intros [= <-]. apply (parse_host_path _ _ _ E).
  - destruct (NetURL.setFragment frag) as [e|[f rf]]; [discriminate|].
    intros [= <-]. cbn [NetURL.Host NetURL.Path]. apply (parse_host_path _ _ _ E).
Qed.

(** Claim C4: when [FromURI] succeeds, the Bucket is the host of the parsed
    URI and the Key is its path without the leading separator; the Key is
    empty both when the path is absent and when it is the separator alone,
    so [s3://b] and [s3://b/] give the same Path. *)
Theorem FromURI_bucket_and_key (uri : string) (p : S3.Path) :
  S3.FromURI uri = (p, None) ->
  (exists u, NetURL.Parse uri = inr u /\
             S3.Bucket p = NetURL.Host u /\
             (NetURL.Path u = EmptyString \/ NetURL.Path u = String "/" (S3.Key p)) /\
             (NetURL.Path u = EmptyString \/ NetURL.Path u = "/" ->
              S3.Key p = EmptyString)) /\
  S3.FromURI "s3://b" = (S3.mkPath "b" EmptyString, None) /\
  S3.FromURI "s3://b/" = (S3.mkPath "b" EmptyString, None).
Proof.
  intros H. split; [|split; reflexivity].
  unfold S3.FromURI in H.
  destruct (NetURL.Parse uri) as [e|u] eqn:E; [discriminate|].
  destruct (negb (String.eqb (NetURL.Scheme u) "s3") ||
            (String.length (NetURL.Host u) =? 0)%nat) eqn:Ec; [discriminate|].
  apply orb_false_iff in Ec as [_ Hlen].
  assert (Hhost : NetURL.Host u <> EmptyString)
    by (intros Hh; rewrite Hh in Hlen; discriminate).
  injection H as <-. cbn [S3.Bucket S3.Key].
  exists u. split; [reflexivity|]. split; [reflexivity|].
  destruct (Parse_host_path uri u E Hhost) as [-> | Hp].
  - split; [left; reflexivity | reflexivity].
  - destruct (NetURL.Path u) as [|c [|d rest]]; [discriminate| |];
      cbn [GoStrings.HasPrefix] in Hp; rewrite andb_true_r in Hp;
      apply Ascii.eqb_eq in Hp; subst c.
    + split; [right; reflexivity | reflexivity].
    + split; [right; reflexivity|]. intros [|]; discriminate.
Qed.

Lemma FromURI_bucket_and_key_witness :
  S3.FromURI "s3://test_bucket/test_dir/test_key"
    = (S3.mkPath "test_bucket" "test_dir/test_key", None) /\
  exists u, NetURL.Parse "s3://test_bucket/test_dir/test_key" = inr u /\
            NetURL.Host u = "test_bucket" /\
            (NetURL.Path u = EmptyString \/
             NetURL.Path u = "/test_dir/test_key").
Proof.
  split; [reflexivity|].
  destruct (FromURI_bucket_and_key "s3://test_bucket/test_dir/test_key"
              (S3.mkPath "test_bucket" "test_dir/test_key") eq_refl)
    as ((u & Hu & Hb & Hp & _) & _).
  exists u. split; [exact Hu|]. split; [symmetry; exact Hb | exact Hp].
Defined.

(** Claim C3, as stated, fails on an input that [url.Parse] itself rejects:
    [FromURI] then returns the error of [url.Parse], which is no
    [ParseError], although scheme and host are as they should be. *)
Lemma FromURI_other_error_counterexample :
  exists e, snd (S3.FromURI "s3://b/%zz") = Some e /\
            e <> S3.ParseError "s3://b/%zz".
Proof. eexists. split; [vm_compute; reflexivity | discriminate]. Qed.

(** Claim C3, amended: for every input, when [url.Parse] rejects it
    [FromURI] returns that error; when [url.Parse] accepts it, [FromURI]
    returns an error if and only if the parsed scheme is not [s3] or the
    parsed host is empty, the error is then [ParseError] of the input, and
    otherwise a Path is returned without error. *)
Theorem FromURI_errors (uri : string) :
  (forall err, NetURL.Parse uri = inl err ->
     S3.FromURI uri = (S3.zeroPath, Some (S3.URLError err))) /\
  (forall u, NetURL.Parse uri = inr u ->
     ((exists e, snd (S3.FromURI uri) = Some e) <->
      (NetURL.Scheme u <> "s3" \/ NetURL.Host u = EmptyString)) /\
     (forall e, snd (S3.FromURI uri) = Some e -> e = S3.ParseError uri) /\
     (NetURL.Scheme u = "s3" -> NetURL.Host u <> EmptyString ->
      exists p, S3.FromURI uri = (p, None))).
Proof.
  split.
  - intros err H. unfold S3.FromURI. rewrite H. reflexivity.
  - intros u H. unfold S3.FromURI. rewrite H.
    destruct (String.eqb_spec (NetURL.Scheme u) "s3") as [Hs|Hs];
      cbn [negb orb].
    + destruct (NetURL.Host u) as [|c h] eqn:Hh; cbn [String.length Nat.eqb snd].
      * split; [|split].
        -- split; [intros _; right; reflexivity | intros _; eauto].
        -- intros e [= <-]. reflexivity.
        -- intros _ Hne. congruence.
      * split; [|split].
        -- split; [intros [e He]; discriminate He|].
           intros [Hne | Hne]; [congruence | discriminate Hne].
        -- intros e He. discriminate He.
        -- intros _ _. eauto.
    + cbn [snd]. split; [|split].
      * split; [intros _; left; exact Hs | intros _; eauto].
      * intros e [= <-]. reflexivity.
      * intros Hs'. congruence.
Qed.

Lemma FromURI_errors_witness :
  (exists err, S3.FromURI "s3://b/%zz" = (S3.zeroPath, Some (S3.URLError err))) /\
  (forall e, snd (S3.FromURI "test_bucket/test_key") = Some e ->
             e = S3.ParseError "test_bucket/test_key") /\
  (exists p, S3.FromURI "s3://test_bucket/test_key" = (p, None)).
Proof.
  split; [|split].
  - eexists. apply (proj1 (FromURI_errors "s3://b/%zz")). vm_compute. reflexivity.
  - destruct (NetURL.Parse "test_bucket/test_key") as [e|u] eqn:E;
      [vm_compute in E; discriminate E|].
    apply (proj2 (FromURI_errors "test_bucket/test_key") u E).
  - destruct (NetURL.Parse "s3://test_bucket/test_key") as [e|u] eqn:E;
      [vm_compute in E; discriminate E|].
    apply (proj2 (FromURI_errors "s3://test_bucket/test_key") u E);
      vm_compute in E; injection E as <-; [reflexivity | discriminate].
Defined.

(** Claim C7: [FromURI] rejects [https://test_bucket/test_key] with the
    [ParseError] that carries the whole input, and rejects
    [s3:/test_bucket/test_key] with a [ParseError] too, the host of the
    parsed URI being empty there. *)
Theorem FromURI_rejects_test_inputs :
  S3.FromURI "https://test_bucket/test_key"
    = (S3.zeroPath, Some (S3.ParseError "https://test_bucket/test_key")) /\
  S3.FromURI "s3:/test_bucket/test_key"
    = (S3.zeroPath, Some (S3.ParseError "s3:/test_bucket/test_key")) /\
  exists u, NetURL.Parse "s3:/test_bucket/test_key" = inr u /\
            NetURL.Scheme u = "s3" /\ NetURL.Host u = EmptyString.
Proof.
  split; [reflexivity|]. split; [reflexivity|].
  eexists. split; [vm_compute; reflexivity|]. split; reflexivity.
Qed.

(** Claim C9: whenever [FromURI] returns an error, of either kind, the Path
    returned with it is the zero Path. *)
Theorem FromURI_error_zero_path (uri : string) (p : S3.Path) (e : S3.error) :
  S3.FromURI uri = (p, Some e) -> p = S3.zeroPath.
Proof.
  unfold S3.FromURI.
  destruct (NetURL.Parse uri) as [err|u]; [intros [= <- _]; reflexivity|].
  match goal with |- context [if ?b then _ else _] => destruct b end;
    [intros [= <- _]; reflexivity | discriminate].
Qed.

Lemma FromURI_error_zero_path_witness :
  snd (S3.FromURI "https://test_bucket/test_key")
    = Some (S3.ParseError "https://test_bucket/test_key") /\
  fst (S3.FromURI "https://test_bucket/test_key") = S3.zeroPath.
Proof.
  split; [reflexivity|].
  apply (FromURI_error_zero_path "https://test_bucket/test_key" _
           (S3.ParseError "https://test_bucket/test_key")).
  reflexivity.
Defined.

(** * Further properties of the path functions *)

(** ** Fields made of separators only *)

Lemma Trim_eq s :
  GoStrings.Trim s "/" =
  GoStrings.trimLeftByte (GoStrings.trimRightByte s "/") "/".
Proof. destruct s; reflexivity. Qed.

Lemma trimRightByte_slashes k : GoStrings.trimRightByte (slashes k) "/" = EmptyString.
Proof.
  induction k as [|k IH]; [reflexivity|].
  cbn [slashes GoStrings.trimRightByte]. rewrite IH. reflexivity.
Qed.

Lemma trimRightByte_app_slashes s k :
  GoStrings.trimRightByte (s ++ slashes k) "/" = GoStrings.trimRightByte s "/".
Proof.
  induction s as [|c s IH]; [apply trimRightByte_slashes|].
  cbn [append GoStrings.trimRightByte]. rewrite IH. reflexivity.
Qed.

Lemma trimLeftByte_slashes_app k s :
  GoStrings.trimLeftByte (slashes k ++ s) "/" = GoStrings.trimLeftByte s "/".
Proof. induction k as [|k IH]; [reflexivity | exact IH]. Qed.

Lemma trimRightByte_slashes_app k s :
  GoStrings.trimRightByte (slashes k ++ s) "/" =
  match GoStrings.trimRightByte s "/" with
  | EmptyString => EmptyString
  | t => slashes k ++ t
  end.
Proof.
  induction k as [|k IH].
  { cbn [slashes append]. destruct (GoStrings.trimRightByte s "/"); reflexivity. }
  cbn [slashes append GoStrings.trimRightByte]. rewrite IH.
  destruct (GoStrings.trimRightByte s "/"); [reflexivity|].
  destruct k; reflexivity.
Qed.

(** Separators added at either end of a string do not survive [Trim]. *)
Lemma Trim_slashes_around i s j :
  GoStrings.Trim (slashes i ++ s ++ slashes j) "/" = GoStrings.Trim s "/".
Proof.
  rewrite !Trim_eq, trimRightByte_slashes_app, trimRightByte_app_slashes.
  destruct (GoStrings.trimRightByte s "/") as [|c t]; [reflexivity|].
  apply trimLeftByte_slashes_app.
Qed.

Lemma all_sep_slashes s : all_bytes is_sep s = true -> s = slashes (String.length s).
Proof.
  induction s as [|c s IH]; [reflexivity|].
  cbn [all_bytes]. intros H. apply andb_true_iff in H as [Hc Hs].
  apply Ascii.eqb_eq in Hc. subst c. cbn [String.length slashes].
  rewrite <- (IH Hs). reflexivity.
Qed.

Lemma trimRightByte_empty s :
  GoStrings.trimRightByte s "/" = EmptyString -> all_bytes is_sep s = true.
Proof.
  induction s as [|c s IH]; [reflexivity|].
  cbn [GoStrings.trimRightByte all_bytes].
  destruct (GoStrings.trimRightByte s "/") as [|d t]; [|discriminate].
  unfold is_sep. destruct (Ascii.eqb c "/"); [|discriminate].
  intros _. apply IH. reflexivity.
Qed.

Lemma trimLeftByte_empty s :
  GoStrings.trimLeftByte s "/" = EmptyString -> all_bytes is_sep s = true.
Proof.
  induction s as [|c s IH]; [reflexivity|].
  cbn [GoStrings.trimLeftByte all_bytes]. unfold is_sep.
  destruct (Ascii.eqb c "/"); [exact IH | discriminate].
Qed.

(** [Trim] leaves nothing exactly of the strings made of separators. *)
Lemma Trim_empty_iff s :
  GoStrings.Trim s "/" = EmptyString <-> all_bytes is_sep s = true.
Proof.
  rewrite Trim_eq. split.
  - intros H. apply trimLeftByte_empty in H.
    destruct (trimRightByte_decomp s) as [k Hk]. rewrite Hk, all_bytes_app, H.
    clear. induction k; [reflexivity | assumption].
  - intros H. rewrite (all_sep_slashes s H), trimRightByte_slashes. reflexivity.
Qed.

(** [Join] is empty exactly when both fields are made of separators only. *)
Lemma Join_empty_iff (p : S3.Path) :
  S3.Join p = EmptyString <->
  all_bytes is_sep (S3.Bucket p) = true /\ all_bytes is_sep (S3.Key p) = true.
Proof.
  rewrite <- !Trim_empty_iff. unfold S3.Join. rewrite Join_pair.
  destruct (GoStrings.Trim (S3.Bucket p) "/") as [|b tb];
    destruct (GoStrings.Trim (S3.Key p) "/") as [|k tk].
  - tauto.
  - split; [intros H; destruct (Clean_nonempty _ H) | intros [_ H]; discriminate].
  - split; [intros H; destruct (Clean_nonempty _ H) | intros [H _]; discriminate].
  - split; [intros H; destruct (Clean_nonempty _ H) | intros [H _]; discriminate].
Qed.

(** X1.  [ToURI] writes the bare scheme [s3:] exactly for the Paths whose
    Bucket and Key are both made of separators only (the empty string
    included); for every other Path it begins with [s3://]. *)
Theorem ToURI_scheme_only (p : S3.Path) :
  (S3.ToURI p = "s3:" <->
   all_bytes is_sep (S3.Bucket p) = true /\ all_bytes is_sep (S3.Key p) = true) /\
  (S3.ToURI p <> "s3:" -> GoStrings.HasPrefix (S3.ToURI p) "s3://" = true).
Proof.
  rewrite <- Join_empty_iff.
  destruct (S3.Join p) as [|c J] eqn:E.
  - assert (H : S3.ToURI p = "s3:")
      by (unfold S3.ToURI; rewrite parse_s3_scheme, E; reflexivity).
    split; [tauto | congruence].
  - assert (H : GoStrings.HasPrefix (S3.ToURI p) "s3://" = true).
    { rewrite ToURI_escaped by (rewrite E; discriminate). reflexivity. }
    split; [|intros _; exact H].
    split; [|discriminate].
    intros H'. rewrite H' in H. discriminate H.
Qed.

Lemma ToURI_scheme_only_witness :
  S3.ToURI (S3.mkPath "//" "/") = "s3:" /\
  GoStrings.HasPrefix (S3.ToURI (S3.mkPath "//" "/k")) "s3://" = true.
Proof.
  split.
  - apply (proj1 (ToURI_scheme_only (S3.mkPath "//" "/"))). split; reflexivity.
  - apply (proj2 (ToURI_scheme_only (S3.mkPath "//" "/k"))). discriminate.
Defined.

(** X2.  Separators added before or after the Bucket or the Key change
    neither [Join] nor [ToURI]. *)
Theorem Join_ToURI_ignore_outer_separators (B K : string) (i j m n : nat) :
  S3.Join (S3.mkPath (slashes i ++ B ++ slashes j) (slashes m ++ K ++ slashes n))
    = S3.Join (S3.mkPath B K) /\
  S3.ToURI (S3.mkPath (slashes i ++ B ++ slashes j) (slashes m ++ K ++ slashes n))
    = S3.ToURI (S3.mkPath B K).
Proof.
  assert (H : S3.Join (S3.mkPath (slashes i ++ B ++ slashes j)
                                 (slashes m ++ K ++ slashes n))
              = S3.Join (S3.mkPath B K)).
  { unfold S3.Join. cbn [S3.Bucket S3.Key].
    rewrite !Trim_slashes_around. reflexivity. }
  split; [exact H|]. unfold S3.ToURI. rewrite H. reflexivity.
Qed.

(** ** What [FromURI] does not look at *)

Lemma FromURI_of_Parse uri u :
  NetURL.Parse uri = inr u ->
  S3.FromURI uri =
  if negb (String.eqb (NetURL.Scheme u) "s3") ||
     (String.length (NetURL.Host u) =? 0)%nat
  then (S3.zeroPath, Some (S3.ParseError uri))
  else (S3.mkPath (NetURL.Host u)
          (if (String.length (NetURL.Path u) <=? 1)%nat then EmptyString
           else drop 1 (NetURL.Path u)), None).
Proof. intros H. unfold S3.FromURI. rewrite H. reflexivity. Qed.

Lemma FromURI_success uri p :
  S3.FromURI uri = (p, None) ->
  exists u, NetURL.Parse uri = inr u /\
    NetURL.Scheme u = "s3" /\ NetURL.Host u <> EmptyString /\
    p = S3.mkPath (NetURL.Host u)
          (if (String.length (NetURL.Path u) <=? 1)%nat then EmptyString
           else drop 1 (NetURL.Path u)).
Proof.
  unfold S3.FromURI.
  destruct (NetURL.Parse uri) as [e|u]; [discriminate|].
  destruct (String.eqb_spec (NetURL.Scheme u) "s3") as [Hs|Hs];
    [|discriminate].
  cbn [negb orb].
  destruct (NetURL.Host u) as [|c h] eqn:Hh; [discriminate|].
  cbn [String.length Nat.eqb]. intros [= <-].
  exists u. rewrite Hh. repeat split; [exact Hs | discriminate].
Qed.

(** What [FromURI] returns when [url.Parse] accepts the input depends on
    scheme, host and path of the parsed URI only. *)
Lemma FromURI_same_parts uri uri' u u' p :
  NetURL.Parse uri = inr u -> NetURL.Parse uri' = inr u' ->
  NetURL.Scheme u' = NetURL.Scheme u -> NetURL.Host u' = NetURL.Host u ->
  NetURL.Path u' = NetURL.Path u ->
  S3.FromURI uri = (p, None) -> S3.FromURI uri' = (p, None).
Proof.
  intros Hu Hu' Hs Hh Hp.
  rewrite (FromURI_of_Parse _ _ Hu), (FromURI_of_Parse _ _ Hu'), Hs, Hh, Hp.
  match goal with |- context [if ?b then _ else _] => destruct b end;
    [discriminate | trivial].
Qed.

Lemma parse_upper_scheme r :
  NetURL.parse ("S3://" ++ r) false = NetURL.parse ("s3://" ++ r) false.
Proof. reflexivity. Qed.

Lemma CutByte_cons c a s :
  GoStrings.CutByte (String a s) c =
  if Ascii.eqb a c then (EmptyString, s, true)
  else (String a (fst (fst (GoStrings.CutByte s c))),
        snd (fst (GoStrings.CutByte s c)), snd (GoStrings.CutByte s c)).
Proof.
  cbn [GoStrings.CutByte]. destruct (Ascii.eqb a c); [reflexivity|].
  destruct (GoStrings.CutByte s c) as [[b af] f]. reflexivity.
Qed.

(** X3.  The scheme is compared without regard to case: an input that
    [FromURI] accepts with the scheme written [s3] is accepted, with the same
    Path, when the scheme is written [S3]. *)
Theorem FromURI_scheme_case (r : string) (p : S3.Path) :
  S3.FromURI ("s3://" ++ r) = (p, None) -> S3.FromURI ("S3://" ++ r) = (p, None).
Proof.
  intros H. destruct (FromURI_success _ _ H) as (u & Hu & _).
  apply (FromURI_same_parts ("s3://" ++ r) _ u u); trivial.
  revert Hu. unfold NetURL.Parse.
  change ("s3://" ++ r) with (String "s" (String "3" (String ":" (String "/" (String "/" r))))).
  change ("S3://" ++ r) with (String "S" (String "3" (String ":" (String "/" (String "/" r))))).
  rewrite !CutByte_cons. cbn [Ascii.eqb Bool.eqb fst snd].
  destruct (GoStrings.CutByte r "#") as [[b frag] found]. cbn [fst snd].
  change (NetURL.parse (String "S" (String "3" (String ":" (String "/" (String "/" b))))) false)
    with (NetURL.parse ("S3://" ++ b) false).
  rewrite parse_upper_scheme.
  change ("s3://" ++ b) with (String "s" (String "3" (String ":" (String "/" (String "/" b))))).
  destruct (NetURL.parse _ false) as [e|url]; [discriminate|].
  destruct (String.eqb frag EmptyString); [trivial|].
  destruct (NetURL.setFragment frag) as [e|[f rf]]; [discriminate | trivial].
Qed.

Lemma FromURI_scheme_case_witness :
  S3.FromURI "S3://test_bucket/test_key" = (S3.mkPath "test_bucket" "test_key", None).
Proof. exact (FromURI_scheme_case "test_bucket/test_key" _ eq_refl). Defined.

Lemma byte_in_app c a b : byte_in c (a ++ b) = byte_in c a || byte_in c b.
Proof.
  induction a as [|x a IH]; [reflexivity|].
  cbn [append byte_in]. rewrite IH. apply orb_assoc.
Qed.

Lemma CTL_app a b :
  NetURL.stringContainsCTLByte (a ++ b) =
  NetURL.stringContainsCTLByte a || NetURL.stringContainsCTLByte b.
Proof.
  induction a as [|x a IH]; [reflexivity|].
  cbn [append NetURL.stringContainsCTLByte]. rewrite IH, !orb_assoc. reflexivity.
Qed.

Lemma CutByte_app_found a b c : byte_in c a = false ->
  GoStrings.CutByte (a ++ String c b) c = (a, b, true).
Proof.
  induction a as [|x a IH]; cbn [append byte_in GoStrings.CutByte]; intros H.
  - rewrite Ascii.eqb_refl. reflexivity.
  - apply orb_false_iff in H as [Hx Ha].
    rewrite Ascii.eqb_sym, Hx, (IH Ha). reflexivity.
Qed.

Lemma CountByte_app a b c :
  GoStrings.CountByte (a ++ b) c = GoStrings.CountByte a c + GoStrings.CountByte b c.
Proof.
  induction a as [|x a IH]; [reflexivity|].
  cbn [append GoStrings.CountByte]. rewrite IH. lia.
Qed.

Lemma HasSuffixByte_count s c :
  GoStrings.HasSuffixByte s c = true -> 1 <= GoStrings.CountByte s c.
Proof.
  induction s as [|x s IH]; [discriminate|].
  cbn [GoStrings.HasSuffixByte GoStrings.CountByte].
  destruct s as [|y s].
  - intros ->. simpl. lia.
  - intros H. specialize (IH H). lia.
Qed.

Lemma take_app_le i a b : i <= String.length a -> take i (a ++ b) = take i a.
Proof.
  revert i. induction a as [|x a IH]; intros [|i] H;
    try reflexivity; simpl in H; [lia|].
  cbn [append take]. rewrite IH by lia. reflexivity.
Qed.

Lemma eqb_app_cons_nil a c b : String.eqb (a ++ String c b) EmptyString = false.
Proof. destruct a; reflexivity. Qed.

(** The query cut off by [parse] is everything after the first [?]. *)
Lemma splitQuery_app rst q : byte_in "?" rst = false ->
  exists fq, NetURL.splitQuery (rst ++ String "?" q) = (rst, fq, q).
Proof.
  intros H. unfold NetURL.splitQuery.
  rewrite CountByte_app, (CountByte_absent _ _ H), (CutByte_app_found _ _ _ H).
  cbn [GoStrings.CountByte Ascii.eqb Bool.eqb plus].
  destruct q as [|d q].
  - rewrite HasSuffixByte_app by discriminate.
    change (GoStrings.HasSuffixByte "?" "?") with true.
    cbn [GoStrings.CountByte Nat.eqb andb].
    rewrite length_append. cbn [String.length].
    replace (String.length rst + 1 - 1) with (String.length rst) by lia.
    rewrite take_app_length. eauto.
  - destruct (GoStrings.HasSuffixByte (rst ++ String "?" (String d q)) "?") eqn:E;
      [|cbn [andb]; eauto].
    change (String "?" (String d q)) with ("?" ++ String d q) in E.
    rewrite 2 HasSuffixByte_app in E by discriminate.
    apply HasSuffixByte_count in E.
    assert (Hn : (S (GoStrings.CountByte (String d q) "?") =? 1)%nat = false)
      by (apply Nat.eqb_neq; lia).
    rewrite Hn. cbn [andb]. eauto.
Qed.

Lemma getScheme_from_app raw q : forall rest i sch rst,
  i + String.length rest = String.length raw ->
  NetURL.getScheme_from raw i rest = inr (sch, rst) ->
  NetURL.getScheme_from (raw ++ String "?" q) i (rest ++ String "?" q)
  = inr (sch, rst ++ String "?" q).
Proof.
  induction rest as [|c rest IH]; intros i sch rst Hlen.
  - cbn [NetURL.getScheme_from append]. intros [= <- <-]. reflexivity.
  - cbn [NetURL.getScheme_from append]. cbn [String.length] in Hlen.
    destruct (in_range "a" "z" c || in_range "A" "Z" c); [apply IH; lia|].
    destruct (in_range "0" "9" c || byte_in c "+-.").
    + destruct (i =? 0)%nat; [intros [= <- <-]; reflexivity | apply IH; lia].
    + destruct (Ascii.eqb c ":"); [|intros [= <- <-]; reflexivity].
      destruct (i =? 0)%nat; [discriminate|].
      intros [= <- <-]. rewrite take_app_le by lia. reflexivity.
Qed.

Lemma getScheme_from_rest c raw : forall rest i sch rst,
  byte_in c raw = false -> byte_in c rest = false ->
  NetURL.getScheme_from raw i rest = inr (sch, rst) -> byte_in c rst = false.
Proof.
  induction rest as [|x rest IH]; intros i sch rst Hraw Hrest;
    cbn [NetURL.getScheme_from].
  - intros [= _ <-]. exact Hraw.
  - cbn [byte_in] in Hrest. apply orb_false_iff in Hrest as [_ Hrest].
    destruct (in_range "a" "z" x || in_range "A" "Z" x); [apply IH; assumption|].
    destruct (in_range "0" "9" x || byte_in x "+-.").
    + destruct (i =? 0)%nat; [intros [= _ <-]; exact Hraw | apply IH; assumption].
    + destruct (Ascii.eqb x ":"); [|intros [= _ <-]; exact Hraw].
      destruct (i =? 0)%nat; [discriminate|].
      intros [= _ <-]. exact Hrest.
Qed.

(** A query after the URI changes nothing in scheme, host and path. *)
Lemma parse_with_query uri q u :
  NetURL.parse uri false = inr u -> NetURL.Scheme u <> EmptyString ->
  byte_in "?" uri = false -> NetURL.stringContainsCTLByte q = false ->
  exists u', NetURL.parse (uri ++ String "?" q) false = inr u' /\
    NetURL.Scheme u' = NetURL.Scheme u /\ NetURL.Host u' = NetURL.Host u /\
    NetURL.Path u' = NetURL.Path u.
Proof.
  intros H Hs Hq Hctl. revert H. unfold NetURL.parse.
  rewrite CTL_app. cbn [NetURL.stringContainsCTLByte].
  change (byte_lt "?" " " || Ascii.eqb "?" (ascii_of_nat 127)) with false.
  cbn [orb]. rewrite Hctl, orb_false_r, !andb_false_r.
  destruct (NetURL.stringContainsCTLByte uri); [discriminate|].
  destruct (String.eqb uri "*") eqn:Estar;
    [intros [= <-]; exfalso; apply Hs; reflexivity|].
  assert (Estar' : String.eqb (uri ++ String "?" q) "*" = false).
  { destruct uri as [|a uri]; [reflexivity|].
    cbn [append String.eqb]. rewrite eqb_app_cons_nil. apply andb_false_r. }
  rewrite Estar'. unfold NetURL.getScheme.
  destruct (NetURL.getScheme_from uri 0 uri) as [e|[scheme0 rest0]] eqn:Eg;
    [discriminate|].
  rewrite (getScheme_from_app uri q uri 0 scheme0 rest0 eq_refl Eg).
  pose proof (getScheme_from_rest _ _ _ _ _ _ Hq Hq Eg) as Hrest0.
  rewrite (splitQuery_absent rest0 Hrest0).
  destruct (splitQuery_app rest0 q Hrest0) as [fq ->].
  cbv beta iota zeta.
  match goal with |- context [if ?b then _ else _] => destruct b end.
  { intros [= <-]. eexists. split; [reflexivity|]. repeat split. }
  match goal with |- context [if ?b then _ else _] => destruct b end;
    [discriminate|].
  match goal with |- context [if ?b then _ else _] => destruct b end;
    [discriminate|].
  destruct (NetURL.splitAuthority (GoStrings.ToLowerASCII scheme0) false rest0)
    as [e|[[[user host] omitHost] rest]]; [discriminate|].
  destruct (NetURL.setPath rest) as [e|[path raw]]; [discriminate|].
  intros [= <-]. eexists. split; [reflexivity|]. repeat split.
Qed.

Lemma Parse_no_fragment uri : byte_in "#" uri = false ->
  NetURL.Parse uri =
  match NetURL.parse uri false with
  | inl e => inl (NetURL.mkError "parse" uri e)
  | inr url => inr url
  end.
Proof.
  intros H. unfold NetURL.Parse. rewrite (CutByte_absent _ _ H).
  destruct (NetURL.parse uri false); reflexivity.
Qed.

(** X4.  [FromURI] drops a query: an input without [?] and [#] that
    [FromURI] accepts is accepted with the same Path when [?] and any query
    (without [#] and control bytes) follow it. *)
Theorem FromURI_ignores_query (uri q : string) (p : S3.Path) :
  S3.FromURI uri = (p, None) ->
  byte_in "?" uri = false -> byte_in "#" uri = false ->
  byte_in "#" q = false -> NetURL.stringContainsCTLByte q = false ->
  S3.FromURI (uri ++ String "?" q) = (p, None).
Proof.
  intros H Hq Hf Hfq Hctl.
  destruct (FromURI_success _ _ H) as (u & Hu & Hs & _).
  rewrite (Parse_no_fragment uri Hf) in Hu.
  destruct (NetURL.parse uri false) as [e|u0] eqn:E; [discriminate|].
  injection Hu as ->.
  destruct (parse_with_query uri q u E) as (u' & Hu' & H1 & H2 & H3);
    [rewrite Hs; discriminate | assumption | assumption |].
  apply (FromURI_same_parts uri _ u u'); trivial.
  - rewrite (Parse_no_fragment uri Hf), E. reflexivity.
  - rewrite Parse_no_fragment, Hu'; [reflexivity|].
    rewrite byte_in_app, Hf. cbn [byte_in orb]. exact Hfq.
Qed.

Lemma FromURI_ignores_query_witness :
  S3.FromURI "s3://test_bucket/test_key?versionId=3&x=?"
  = (S3.mkPath "test_bucket" "test_key", None).
Proof.
  exact (FromURI_ignores_query "s3://test_bucket/test_key" "versionId=3&x=?"
           _ eq_refl eq_refl eq_refl eq_refl eq_refl).
Defined.

(** X5.  [FromURI] drops a fragment: an input without [#] that [FromURI]
    accepts is accepted with the same Path when [#] and a fragment with
    well-formed percent escapes follow it. *)
Theorem FromURI_ignores_fragment (uri f g : string) (p : S3.Path) :
  S3.FromURI uri = (p, None) -> byte_in "#" uri = false ->
  NetURL.unescape f NetURL.encodeFragment = inr g ->
  S3.FromURI (uri ++ String "#" f) = (p, None).
Proof.
  intros H Hf Hg.
  destruct (FromURI_success _ _ H) as (u & Hu & _).
  pose proof Hu as Hu0. rewrite (Parse_no_fragment uri Hf) in Hu0.
  destruct (NetURL.parse uri false) as [e|u0] eqn:E; [discriminate|].
  injection Hu0 as ->.
  assert (Hu' : exists u', NetURL.Parse (uri ++ String "#" f) = inr u' /\
            NetURL.Scheme u' = NetURL.Scheme u /\ NetURL.Host u' = NetURL.Host u /\
            NetURL.Path u' = NetURL.Path u).
  { unfold NetURL.Parse. rewrite (CutByte_app_found _ _ _ Hf), E.
    destruct (String.eqb f EmptyString); [exists u; repeat split|].
    unfold NetURL.setFragment. rewrite Hg.
    match goal with |- context [if ?b then _ else _] => destruct b end;
      eexists; (split; [reflexivity|]); repeat split. }
  destruct Hu' as (u' & Hu' & H1 & H2 & H3).
  apply (FromURI_same_parts uri _ u u'); trivial.
Qed.

Lemma FromURI_ignores_fragment_witness :
  S3.FromURI "s3://test_bucket/test_key?x=1#part%202"
  = (S3.mkPath "test_bucket" "test_key", None).
Proof.
  exact (FromURI_ignores_fragment "s3://test_bucket/test_key?x=1" "part%202"
           "part 2" _ eq_refl eq_refl eq_refl).
Defined.

(** ** The host that [url.Parse] returns *)

Lemma unhex_le c : NetURL.unhex c <= 15.
Proof. apply Nat.leb_le. byte_cases c; vm_compute; reflexivity. Qed.

Lemma no_sep_app a b : no_sep (a ++ b) = no_sep a && no_sep b.
Proof. unfold no_sep. rewrite byte_in_app. apply negb_orb. Qed.

(** A percent escape that stands for the separator is [%2F] or [%2f]. *)
Lemma unhex2_sep h1 h2 : NetURL.unhex2 h1 h2 = "/"%char ->
  NetURL.unhex h1 = 2 /\
  String.eqb (String "%" (String h1 (String h2 EmptyString))) "%25" = false.
Proof.
  unfold NetURL.unhex2. intros H.
  pose proof (unhex_le h1) as H1. pose proof (unhex_le h2) as H2.
  apply (f_equal nat_of_ascii) in H.
  rewrite nat_ascii_embedding in H by lia.
  change (nat_of_ascii "/") with 47 in H.
  assert (Ha : NetURL.unhex h1 = 2) by lia.
  assert (Hb : NetURL.unhex h2 = 15) by lia.
  split; [exact Ha|].
  cbn [String.eqb]. destruct (Ascii.eqb_spec h2 "5") as [->|]; [|apply andb_false_r].
  vm_compute in Hb. discriminate Hb.
Qed.

(** No separator comes out of [unescape] in the host modes. *)
Lemma unescape_build_host_no_sep mode : NetURL.is_host_mode mode = true ->
  forall k s n h r, String.length s <= k ->
  NetURL.unescape_scan s mode n h = inr r ->
  no_sep (NetURL.unescape_build s mode) = true.
Proof.
  intros Hm. induction k as [|k IH]; intros s n h r Hlen.
  - destruct s; [reflexivity | simpl in Hlen; lia].
  - destruct s as [|c s1]; [reflexivity|]. cbn [String.length] in Hlen.
    cbn [NetURL.unescape_scan NetURL.unescape_build].
    destruct (Ascii.eqb_spec c "%") as [->|Hc].
    + destruct s1 as [|h1 [|h2 s3]]; try discriminate.
      cbn [String.length] in Hlen. cbn [take].
      destruct (negb (NetURL.ishex h1) || negb (NetURL.ishex h2)); [discriminate|].
      destruct (Ascii.eqb_spec (NetURL.unhex2 h1 h2) "/") as [Hv|Hv].
      * destruct (unhex2_sep h1 h2 Hv) as [H2 H25]. rewrite H25, Hv, H2.
        destruct mode; try discriminate Hm; discriminate.
      * match goal with |- (if ?b then _ else _) = _ -> _ => destruct b end;
          [discriminate|].
        match goal with |- (if ?b then _ else _) = _ -> _ => destruct b end;
          [discriminate|].
        intros H. apply no_sep_cons. split; [exact Hv|].
        apply (IH s3 _ _ _ ltac:(lia) H).
    + destruct (Ascii.eqb_spec c "+") as [->|Hp].
      * intros H. apply no_sep_cons. split; [destruct mode; discriminate|].
        apply (IH s1 _ _ _ ltac:(lia) H).
      * rewrite Hm. cbn [andb].
        destruct (Ascii.eqb_spec c "/") as [->|Hs]; [discriminate|].
        match goal with |- (if ?b then _ else _) = _ -> _ => destruct b end;
          [discriminate|].
        intros H. apply no_sep_cons. split; [exact Hs|].
        apply (IH s1 _ _ _ ltac:(lia) H).
Qed.

Lemma unescape_host_no_sep mode s h : NetURL.is_host_mode mode = true ->
  NetURL.unescape s mode = inr h -> no_sep h = true.
Proof.
  intros Hm H.
  assert (Hq : NetURL.mode_is_query mode = false)
    by (destruct mode; try discriminate Hm; reflexivity).
  rewrite (unescape_eq_build s mode h Hq H).
  unfold NetURL.unescape in H.
  destruct (NetURL.unescape_scan s mode 0 false) as [e|r] eqn:E; [discriminate|].
  apply (unescape_build_host_no_sep mode Hm (String.length s) s 0 false r (le_n _) E).
Qed.

Lemma parseHost_no_sep host h : NetURL.parseHost host = inr h -> no_sep h = true.
Proof.
  unfold NetURL.parseHost.
  assert (Hplain : NetURL.unescape host NetURL.encodeHost = inr h -> no_sep h = true)
    by (apply (unescape_host_no_sep NetURL.encodeHost); reflexivity).
  destruct (GoStrings.HasPrefix host "[").
  - destruct (GoStrings.LastIndexByte host "]") as [i|]; [|discriminate].
    destruct (negb (NetURL.validOptionalPort (drop (i + 1) host))); [discriminate|].
    destruct (GoStrings.Index (take i host) "%25") as [zone|]; [|exact Hplain].
    destruct (NetURL.unescape (take zone host) NetURL.encodeHost) as [e|h1] eqn:E1;
      [discriminate|].
    destruct (NetURL.unescape (drop zone (take i host)) NetURL.encodeZone)
      as [e|h2] eqn:E2; [discriminate|].
    destruct (NetURL.unescape (drop i host) NetURL.encodeHost) as [e|h3] eqn:E3;
      [discriminate|].
    intros [= <-]. rewrite !no_sep_app.
    rewrite (unescape_host_no_sep NetURL.encodeHost _ _ eq_refl E1),
      (unescape_host_no_sep NetURL.encodeZone _ _ eq_refl E2),
      (unescape_host_no_sep NetURL.encodeHost _ _ eq_refl E3).
    reflexivity.
  - destruct (GoStrings.LastIndexByte host ":") as [i|]; [|exact Hplain].
    destruct (negb (NetURL.validOptionalPort (drop i host))); [discriminate|].
    exact Hplain.
Qed.

Lemma parseAuthority_no_sep authority user host :
  NetURL.parseAuthority authority = inr (user, host) -> no_sep host = true.
Proof.
  unfold NetURL.parseAuthority.
  destruct (GoStrings.LastIndexByte authority "@") as [i|].
  - destruct (NetURL.parseHost (drop (i + 1) authority)) as [e|h] eqn:E;
      [discriminate|].
    apply parseHost_no_sep in E.
    destruct (negb (NetURL.validUserinfo (take i authority))); [discriminate|].
    destruct (negb (GoStrings.ContainsByte (take i authority) ":")).
    + destruct (NetURL.unescape (take i authority) NetURL.encodeUserPassword);
        [discriminate|].
      intros [= _ <-]. exact E.
    + destruct (GoStrings.CutByte (take i authority) ":") as [[name pass] found].
      destruct (NetURL.unescape name NetURL.encodeUserPassword); [discriminate|].
      destruct (NetURL.unescape pass NetURL.encodeUserPassword); [discriminate|].
      intros [= _ <-]. exact E.
  - destruct (NetURL.parseHost authority) as [e|h] eqn:E; [discriminate|].
    intros [= _ <-]. apply (parseHost_no_sep _ _ E).
Qed.

Lemma splitAuthority_no_sep scheme viaRequest rest user host omitHost rest' :
  NetURL.splitAuthority scheme viaRequest rest = inr (user, host, omitHost, rest') ->
  no_sep host = true.
Proof.
  unfold NetURL.splitAuthority.
  match goal with |- context [if ?b then _ else _] => destruct b end.
  - destruct (GoStrings.Index (drop 2 rest) "/") as [i|].
    + destruct (NetURL.parseAuthority (take i (drop 2 rest))) as [e|[u h]] eqn:E;
        [discriminate|].
      intros [= _ <- _ _]. apply (parseAuthority_no_sep _ _ _ E).
    + destruct (NetURL.parseAuthority (drop 2 rest)) as [e|[u h]] eqn:E;
        [discriminate|].
      intros [= _ <- _ _]. apply (parseAuthority_no_sep _ _ _ E).
  - match goal with |- context [if ?b then _ else _] => destruct b end;
      intros [= _ <- _ _]; reflexivity.
Qed.

Lemma parse_host_no_sep rawURL viaRequest u :
  NetURL.parse rawURL viaRequest = inr u -> no_sep (NetURL.Host u) = true.
Proof.
  unfold NetURL.parse.
  destruct (NetURL.stringContainsCTLByte rawURL); [discriminate|].
  destruct (String.eqb rawURL EmptyString && viaRequest); [discriminate|].
  destruct (String.eqb rawURL "*"); [intros [= <-]; reflexivity|].
  destruct (NetURL.getScheme rawURL) as [e|[scheme0 rest0]]; [discriminate|].
  cbv zeta.
  destruct (NetURL.splitQuery rest0) as [[rest1 forceQuery] rawQuery].
  match goal with |- context [if ?b then _ else _] => destruct b end;
    [intros [= <-]; reflexivity|].
  match goal with |- context [if ?b then _ else _] => destruct b end;
    [discriminate|].
  match goal with |- context [if ?b then _ else _] => destruct b end;
    [discriminate|].
  destruct (NetURL.splitAuthority (GoStrings.ToLowerASCII scheme0) viaRequest rest1)
    as [e|[[[user host] omitHost] rest]] eqn:Ea; [discriminate|].
  destruct (NetURL.setPath rest) as [e|[path raw]]; [discriminate|].
  intros [= <-]. cbn [NetURL.Host]. apply (splitAuthority_no_sep _ _ _ _ _ _ _ Ea).
Qed.

Lemma Parse_host_no_sep uri u :
  NetURL.Parse uri = inr u -> no_sep (NetURL.Host u) = true.
Proof.
  unfold NetURL.Parse.
  destruct (GoStrings.CutByte uri "#") as [[raw frag] found].
  destruct (NetURL.parse raw false) as [e|url] eqn:E; [discriminate|].
  destruct (String.eqb frag EmptyString).
  - intros [= <-]. apply (parse_host_no_sep _ _ _ E).
  - destruct (NetURL.setFragment frag) as [e|[f rf]]; [discriminate|].
    intros [= <-]. cbn [NetURL.Host]. apply (parse_host_no_sep _ _ _ E).
Qed.

(** X6.  A Path that [FromURI] returns without error has a Bucket that is
    not empty and holds no separator, also when the host of the input was
    written with percent escapes. *)
Theorem FromURI_bucket_shape (uri : string) (p : S3.Path) :
  S3.FromURI uri = (p, None) ->
  S3.Bucket p <> EmptyString /\ no_sep (S3.Bucket p) = true.
Proof.
  intros H. destruct (FromURI_success _ _ H) as (u & Hu & _ & Hh & ->).
  cbn [S3.Bucket]. split; [exact Hh | apply (Parse_host_no_sep _ _ Hu)].
Qed.

Lemma FromURI_bucket_shape_witness :
  S3.FromURI "s3://test_bucket:80/k%2Fx" = (S3.mkPath "test_bucket:80" "k/x", None) /\
  "test_bucket:80" <> EmptyString /\ no_sep "test_bucket:80" = true.
Proof.
  split; [reflexivity|].
  exact (FromURI_bucket_shape "s3://test_bucket:80/k%2Fx"
           (S3.mkPath "test_bucket:80" "k/x") eq_refl).
Defined.

(** ** The key that [Append] makes *)

(** X7.  The key that [Append] makes never holds two separators in a row,
    ends with a separator only when it is the root [/] alone, and begins
    with a separator exactly when the first non-empty one of the old key and
    the suffix does. *)
Theorem Append_key_tidy (p : S3.Path) (suffix : string) :
  GoStrings.Index (S3.Key (S3.Append p suffix)) "//" = None /\
  (GoStrings.HasSuffixByte (S3.Key (S3.Append p suffix)) "/" = true ->
   S3.Key (S3.Append p suffix) = "/") /\
  GoStrings.HasPrefix (S3.Key (S3.Append p suffix)) "/"
    = GoStrings.HasPrefix (S3.Key p ++ suffix) "/".
Proof.
  unfold S3.Append. cbn [S3.Key]. rewrite Join_pair.
  destruct (S3.Key p) as [|c k].
  - destruct suffix as [|d s]; [repeat split; discriminate|].
    apply Clean_tidy.
  - destruct (Clean_tidy (String c k ++ String "/" suffix)) as (H1 & H2 & H3).
    split; [exact H1|]. split; [exact H2|]. rewrite H3. reflexivity.
Qed.

Lemma Append_key_tidy_witness :
  S3.Key (S3.Append (S3.mkPath "b" "/") "..") = "/" /\
  S3.Key (S3.Append (S3.mkPath "b" "//a//b/") "/c//") = "/a/b/c".
Proof.
  split; [|reflexivity].
  apply (proj1 (proj2 (Append_key_tidy (S3.mkPath "b" "/") ".."))). reflexivity.
Defined.

(** ** [path.Clean] applied twice *)

Lemma Clean_state (x : string) :
  GoPath.Clean x =
  match x with
  | EmptyString => "."
  | String c rest =>
      if Ascii.eqb c "/" then finish (GoPath.run true rest (["/"%char], 1))
      else finish (GoPath.run false x ([], 0))
  end.
Proof.
  destruct x as [|c rest]; [reflexivity|].
  unfold GoPath.Clean, finish, GoPath.run. cbn [fst snd].
  destruct (Ascii.eqb c "/").
  - destruct (GoPath.clean_loop true rest ["/"%char] 1) as [[|b out] dd]; reflexivity.
  - destruct (GoPath.clean_loop false (String c rest) [] 0) as [[|b out] dd];
      reflexivity.
Qed.

Lemma join_firstn_lt es : Forall (fun e => solid e = true) es ->
  forall k, k < List.length es ->
  String.length (join_elems (firstn k es)) < String.length (join_elems es).
Proof.
  induction 1 as [|a es Ha Hes IH]; intros k Hk; [simpl in Hk; lia|].
  destruct (solid_inv _ Ha) as (c & a' & -> & _).
  destruct k as [|k]; cbn [firstn].
  - rewrite join_cons_length. simpl. lia.
  - cbn [List.length] in Hk. specialize (IH k ltac:(lia)).
    rewrite !join_cons_length.
    destruct es as [|b es]; [simpl in Hk; lia|].
    destruct (firstn k (b :: es)); lia.
Qed.

Lemma stack_inv_dd_full es k st : stack_inv es k st ->
  List.length (fst st) <= snd st -> k = List.length es.
Proof.
  intros (Hes & Hout & Hk & Hdd) Hle.
  destruct (Nat.eq_dec k (List.length es)) as [|Hne]; [assumption|].
  pose proof (join_firstn_lt es Hes k ltac:(lia)) as Hlt.
  rewrite Hout, length_rev_onto, Hdd in Hle. simpl in Hle. lia.
Qed.

(** The [..] case on a relative path, with the stack it leaves. *)
Lemma stack_inv_dotdot_cases es k st :
  stack_inv es k st ->
  (k < List.length es /\
   stack_inv (removelast es) k (GoPath.dotdot_step false (fst st) (snd st))) \/
  (k = List.length es /\
   stack_inv (es ++ [".."])%list (S k) (GoPath.dotdot_step false (fst st) (snd st))).
Proof.
  intros Hinv. pose proof Hinv as (Hes & Hout & Hk & Hdd).
  destruct st as [out dd]. cbn [fst snd] in *.
  unfold GoPath.dotdot_step.
  destruct (dd <? List.length out)%nat eqn:Hlt.
  - left. apply Nat.ltb_lt in Hlt.
    assert (Hk' : k < List.length es).
    { destruct (Nat.eq_dec k (List.length es)) as [->|]; [|lia].
      rewrite firstn_all in Hdd. rewrite Hout, length_rev_onto in Hlt.
      simpl in Hlt. lia. }
    split; [exact Hk'|].
    destruct es as [|e0 es0] using rev_ind; [simpl in Hk'; lia|]. clear IHes0.
    rewrite removelast_last.
    rewrite length_app in Hk'. simpl in Hk'.
    apply Forall_app in Hes as [Hes0 He0]. apply Forall_inv in He0.
    destruct (solid_inv _ He0) as (c0 & e0' & -> & Hc0 & Hno).
    rewrite firstn_app in Hdd.
    replace (k - List.length es0) with 0 in Hdd by lia.
    cbn [firstn] in Hdd. rewrite app_nil_r in Hdd.
    set (R := rev_onto (join_elems es0) []).
    assert (HR : dd <= List.length R).
    { unfold R. rewrite length_rev_onto, Hdd. simpl.
      pose proof (length_join_firstn es0 k). lia. }
    assert (Hpop : pops_to dd R out).
    { rewrite Hout, rev_onto_join_snoc by assumption. fold R.
      cbn [rev_onto]. apply pops_to_rev_onto; [assumption|].
      unfold GoPath.add_slash. cbn [negb andb orb].
      destruct R as [|r R'] eqn:ER.
      - simpl. replace dd with 0 by (simpl in HR; lia).
        apply pops_to_single, Hc0.
      - cbn [List.length Nat.eqb negb]. apply pops_to_after_sep; assumption. }
    destruct Hpop as (b & Y' & HY & _ & _ & Hbt).
    rewrite HY, Hbt. unfold stack_inv. cbn [fst snd].
    repeat split; auto; lia.
  - right. apply Nat.ltb_ge in Hlt.
    assert (Hfull : k = List.length es)
      by (apply (stack_inv_dd_full es k (out, dd) Hinv); exact Hlt).
    split; [exact Hfull|]. cbn [negb].
    assert (Hpush := stack_inv_push es k (out, dd) ".." Hinv eq_refl).
    destruct Hpush as (H1 & H2 & _ & _). cbn [fst snd] in H2.
    assert (Hout2 : "."%char :: "."%char ::
              (if (0 <? List.length out)%nat then "/"%char :: out else out)
            = rev_onto (join_elems (es ++ [".."])%list) []).
    { rewrite <- H2. cbn [rev_onto]. unfold GoPath.add_slash. cbn [negb andb orb].
      destruct out; reflexivity. }
    rewrite Hout2. unfold stack_inv. cbn [fst snd].
    assert (Hl : S k = List.length (es ++ [".."])%list)
      by (rewrite length_app; simpl; lia).
    repeat split; auto; [lia|].
    rewrite Hl, firstn_all, length_rev_onto. simpl. lia.
Qed.

Lemma forallb_removelast {A} (f : A -> bool) l :
  forallb f l = true -> forallb f (removelast l) = true.
Proof.
  destruct l as [|a l] using rev_ind; [trivial|].
  rewrite removelast_last, forallb_app. intros H.
  apply andb_true_iff in H. tauto.
Qed.

Lemma shaped_push es k e : k <= List.length es ->
  shaped es k -> plain e = true -> shaped (es ++ [e])%list k.
Proof.
  intros Hk [H1 H2] He. split.
  - rewrite firstn_app. replace (k - List.length es) with 0 by lia.
    cbn [firstn]. rewrite app_nil_r. exact H1.
  - rewrite skipn_app. replace (k - List.length es) with 0 by lia.
    cbn [skipn]. rewrite forallb_app, H2. cbn [forallb]. rewrite He. reflexivity.
Qed.

Lemma shaped_pop es k : k < List.length es ->
  shaped es k -> shaped (removelast es) k.
Proof.
  intros Hk [H1 H2].
  destruct es as [|e0 es0] using rev_ind; [simpl in Hk; lia|]. clear IHes0.
  rewrite length_app in Hk. simpl in Hk.
  rewrite removelast_last. split.
  - rewrite firstn_app in H1. replace (k - List.length es0) with 0 in H1 by lia.
    cbn [firstn] in H1. rewrite app_nil_r in H1. exact H1.
  - rewrite skipn_app in H2. replace (k - List.length es0) with 0 in H2 by lia.
    cbn [skipn] in H2. rewrite forallb_app in H2.
    apply andb_true_iff in H2. tauto.
Qed.

Lemma shaped_dotdot es : shaped es (List.length es) ->
  shaped (es ++ [".."])%list (S (List.length es)).
Proof.
  intros [H1 _]. rewrite firstn_all in H1.
  assert (Hl : S (List.length es) = List.length (es ++ [".."])%list)
    by (rewrite length_app; simpl; lia).
  split.
  - rewrite Hl, firstn_all, <- Hl. rewrite H1 at 1.
    cbn [repeat]. symmetry. apply repeat_cons.
  - rewrite Hl, skipn_all. reflexivity.
Qed.

Lemma shaped_elem_step es k st e :
  stack_inv es k st -> shaped es k -> no_sep e = true ->
  exists es' k', stack_inv es' k' (elem_step false st e) /\ shaped es' k'.
Proof.
  intros Hinv Hsh He. unfold elem_step.
  destruct (String.eqb e EmptyString) eqn:E0; [exists es, k; auto|].
  destruct (String.eqb e ".") eqn:E1; [exists es, k; auto|].
  cbn [orb].
  destruct (String.eqb e "..") eqn:E2.
  - destruct (stack_inv_dotdot_cases es k st Hinv) as [[Hk H] | [Hk H]].
    + exists (removelast es), k. split; [exact H | apply shaped_pop; assumption].
    + exists (es ++ [".."])%list, (S k). split; [exact H|].
      subst k. apply shaped_dotdot, Hsh.
  - exists (es ++ [e])%list, k. split.
    + apply stack_inv_push; [exact Hinv | apply plain_no_sep_solid; assumption].
    + apply shaped_push; [apply Hinv | exact Hsh |].
      unfold plain. rewrite E0, E1, E2. reflexivity.
Qed.

Lemma shaped_fold l : Forall (fun e => no_sep e = true) l ->
  forall es k st, stack_inv es k st -> shaped es k ->
  exists es' k', stack_inv es' k' (fold_left (elem_step false) l st) /\ shaped es' k'.
Proof.
  induction 1 as [|e l He _ IH]; intros es k st Hinv Hsh; cbn [fold_left]; eauto.
  destruct (shaped_elem_step es k st e Hinv Hsh He) as (es1 & k1 & H1 & H2).
  eapply IH; eassumption.
Qed.

Lemma run_relative_shaped (x : string) :
  exists es k, stack_inv es k (GoPath.run false x ([], 0)) /\ shaped es k.
Proof.
  rewrite run_elements.
  apply (shaped_fold _ (elements_all_no_sep x) [] 0); [apply stack_inv_init|].
  split; reflexivity.
Qed.

Lemma elements_join es : Forall (fun e => solid e = true) es -> es <> [] ->
  elements (join_elems es) = es.
Proof.
  induction 1 as [|a es Ha Hes IH]; intros Hne; [congruence|].
  cbn [join_elems]. destruct es as [|b es].
  - apply elements_no_sep, solid_no_sep, Ha.
  - rewrite elements_app_sep, (elements_no_sep a (solid_no_sep _ Ha)), IH by discriminate.
    reflexivity.
Qed.

Lemma fold_dotdots k :
  fold_left (elem_step false) (repeat ".." k) ([], 0) =
  (rev_onto (join_elems (repeat ".." k)) [],
   String.length (join_elems (repeat ".." k))).
Proof.
  induction k as [|k IH]; [reflexivity|].
  assert (Hr : repeat ".." (S k) = (repeat ".." k ++ [".."])%list)
    by (cbn [repeat]; apply repeat_cons).
  rewrite Hr, fold_left_app, IH. cbn [fold_left].
  change (elem_step false ?st "..") with (GoPath.dotdot_step false (fst st) (snd st)).
  assert (Hinv : stack_inv (repeat ".." k) k
            (rev_onto (join_elems (repeat ".." k)) [],
             String.length (join_elems (repeat ".." k)))).
  { repeat split; cbn [fst snd].
    - apply Forall_forall. intros e He. apply repeat_spec in He. subst e. reflexivity.
    - rewrite repeat_length. lia.
    - rewrite <- (repeat_length ".." k) at 2. rewrite firstn_all. reflexivity. }
  destruct (stack_inv_dotdot_cases _ _ _ Hinv) as [[Hk _] | [_ (_ & H2 & _ & H4)]].
  - rewrite repeat_length in Hk. lia.
  - cbn [fst snd] in *.
    destruct (GoPath.dotdot_step false _ _) as [out dd]. cbn [fst snd] in *.
    rewrite H2, H4. f_equal.
    replace (S k) with (List.length (repeat ".." k ++ [".."])%list)
      by (rewrite length_app, repeat_length; simpl; lia).
    rewrite firstn_all. reflexivity.
Qed.

(** The loop rebuilds a stack from its own rendering. *)
Lemma run_join_shaped es k :
  Forall (fun e => solid e = true) es -> shaped es k -> k <= List.length es ->
  GoPath.run false (join_elems es) ([], 0) =
  (rev_onto (join_elems es) [], String.length (join_elems (firstn k es))).
Proof.
  intros Hes [H1 H2] Hk.
  destruct es as [|a es']; [destruct k; reflexivity|].
  rewrite run_elements, elements_join by (assumption || discriminate).
  rewrite <- (firstn_skipn k (a :: es')) at 1 2.
  rewrite fold_left_app, H1, fold_dotdots.
  assert (Hno : Forall (fun e => no_sep e = true) (skipn k (a :: es'))).
  { rewrite <- (firstn_skipn k (a :: es')) in Hes.
    apply Forall_app in Hes as [_ Hes].
    revert Hes. apply Forall_impl. intros e. apply solid_no_sep. }
  rewrite (fold_plain _ Hno H2).
  - reflexivity.
  - apply Forall_forall. intros e He. apply repeat_spec in He. subst e. reflexivity.
Qed.

Lemma run_Clean_relative (y : string) :
  GoStrings.HasPrefix y "/" = false ->
  GoPath.run false (GoPath.Clean y) ([], 0) = GoPath.run false y ([], 0).
Proof.
  intros Hy. rewrite (Clean_relative y Hy).
  destruct (run_relative_shaped y) as (es & k & Hinv & Hsh).
  pose proof Hinv as (Hes & Hout & Hk & Hdd).
  destruct (GoPath.run false y ([], 0)) as [out dd]. cbn [fst snd] in *.
  unfold finish. cbn [fst]. subst out dd.
  destruct es as [|a es'].
  - destruct k; reflexivity.
  - pose proof (join_nonempty (a :: es') Hes ltac:(discriminate)) as Hne.
    pose proof (string_of_rev_onto (join_elems (a :: es'))) as Hs.
    destruct (rev_onto (join_elems (a :: es')) []) eqn:E.
    + exfalso. apply Hne. symmetry. exact Hs.
    + rewrite Hs, <- E. apply run_join_shaped; assumption.
Qed.

(** On a rooted path only plain elements stay on the stack. *)
Lemma rooted_plain_elem_step es st e :
  rooted_inv es st -> forallb plain es = true -> no_sep e = true ->
  exists es', rooted_inv es' (elem_step true st e) /\ forallb plain es' = true.
Proof.
  intros Hinv Hpl He. unfold elem_step.
  destruct (String.eqb e EmptyString) eqn:E0; [exists es; auto|].
  destruct (String.eqb e ".") eqn:E1; [exists es; auto|].
  cbn [orb].
  destruct (String.eqb e "..") eqn:E2.
  - exists (removelast es). rewrite (rooted_dotdot es st Hinv).
    destruct Hinv as (Hes & _ & _).
    split; [repeat split; apply Forall_removelast, Hes|].
    apply forallb_removelast, Hpl.
  - exists (es ++ [e])%list. split.
    + apply rooted_inv_push; [exact Hinv | apply plain_no_sep_solid; assumption].
    + rewrite forallb_app, Hpl. cbn [forallb]. unfold plain.
      rewrite E0, E1, E2. reflexivity.
Qed.

Lemma rooted_plain_fold l : Forall (fun e => no_sep e = true) l ->
  forall es st, rooted_inv es st -> forallb plain es = true ->
  exists es', rooted_inv es' (fold_left (elem_step true) l st) /\
              forallb plain es' = true.
Proof.
  induction 1 as [|e l He _ IH]; intros es st Hinv Hpl; cbn [fold_left]; eauto.
  destruct (rooted_plain_elem_step es st e Hinv Hpl He) as (es1 & H1 & H2).
  eapply IH; eassumption.
Qed.

Lemma fold_plain_rooted l : Forall (fun e => no_sep e = true) l ->
  forallb plain l = true ->
  forall es, Forall (fun e => solid e = true) es ->
  fold_left (elem_step true) l (rev_onto (String "/" (join_elems es)) [], 1) =
  (rev_onto (String "/" (join_elems (es ++ l)%list)) [], 1).
Proof.
  induction 1 as [|e l He Hl IH]; intros Hp es Hes; cbn [fold_left].
  - rewrite app_nil_r. reflexivity.
  - cbn [forallb] in Hp. apply andb_true_iff in Hp as [Hpe Hpl].
    assert (Hstep : elem_step true (rev_onto (String "/" (join_elems es)) [], 1) e
                    = (rev_onto (String "/" (join_elems (es ++ [e])%list)) [], 1)).
    { unfold elem_step. unfold plain in Hpe.
      apply andb_true_iff in Hpe as [Hpe H3]. apply andb_true_iff in Hpe as [H1 H2].
      apply negb_true_iff in H1, H2, H3. rewrite H1, H2, H3. cbn [orb fst snd].
      rewrite <- (rev_onto_rooted_snoc es e Hes). reflexivity. }
    rewrite Hstep, (IH Hpl (es ++ [e])%list).
    + rewrite <- app_assoc. reflexivity.
    + apply Forall_app. split; [assumption|].
      constructor; [apply plain_solid; assumption | constructor].
Qed.

Lemma run_Clean_rooted (rest : string) :
  exists J, GoPath.Clean (String "/" rest) = String "/" J /\
    GoPath.run true J (["/"%char], 1) = GoPath.run true rest (["/"%char], 1).
Proof.
  destruct (rooted_plain_fold (elements rest) (elements_all_no_sep rest) []
              (["/"%char], 1) rooted_inv_init eq_refl)
    as (es & (Hes & Hout & Hdd) & Hpl).
  rewrite <- run_elements in Hout, Hdd.
  exists (join_elems es). split.
  - rewrite Clean_state. cbn [Ascii.eqb Bool.eqb]. unfold finish. rewrite Hout.
    pose proof (string_of_rev_onto (String "/" (join_elems es))) as Hs.
    destruct (rev_onto (String "/" (join_elems es)) []) eqn:E; [|exact Hs].
    discriminate Hs.
  - destruct (GoPath.run true rest (["/"%char], 1)) as [out dd].
    cbn [fst snd] in *. subst out dd.
    destruct es as [|a es']; [reflexivity|].
    rewrite run_elements, elements_join by (assumption || discriminate).
    assert (Hno : Forall (fun e => no_sep e = true) (a :: es'))
      by (revert Hes; apply Forall_impl; intros e; apply solid_no_sep).
    apply (fold_plain_rooted _ Hno Hpl [] (Forall_nil _)).
Qed.

(** Cleaning the front of a path first does not change the clean form of
    the whole. *)
Lemma Clean_Clean_app_sep (y b : string) : y <> EmptyString ->
  GoPath.Clean (GoPath.Clean y ++ String "/" b) = GoPath.Clean (y ++ String "/" b).
Proof.
  intros Hy. destruct y as [|c rest]; [congruence|].
  destruct (Ascii.eqb_spec c "/") as [->|Hc].
  - destruct (run_Clean_rooted rest) as (J & -> & HJ).
    rewrite !Clean_state. cbn [append Ascii.eqb Bool.eqb].
    rewrite !run_app_sep, HJ. reflexivity.
  - assert (Hrel : GoStrings.HasPrefix (String c rest) "/" = false).
    { cbn [GoStrings.HasPrefix]. apply Ascii.eqb_neq in Hc. rewrite Hc. reflexivity. }
    destruct (Clean_tidy (String c rest)) as (_ & _ & Hpre). rewrite Hrel in Hpre.
    pose proof (Clean_nonempty (String c rest)) as Hne.
    pose proof (run_Clean_relative _ Hrel) as Hrun.
    destruct (GoPath.Clean (String c rest)) as [|d cl]; [congruence|].
    rewrite (Clean_relative (String d cl ++ String "/" b)),
      (Clean_relative (String c rest ++ String "/" b)).
    + rewrite !run_app_sep, Hrun. reflexivity.
    + exact Hrel.
    + exact Hpre.
Qed.

(** A separator at the end of a path is ignored. *)
Lemma Clean_app_sep_end (t : string) : t <> EmptyString ->
  GoPath.Clean (t ++ "/") = GoPath.Clean t.
Proof.
  destruct t as [|d t]; [congruence|]. intros _.
  rewrite !Clean_state. cbn [append].
  destruct (Ascii.eqb d "/").
  - rewrite run_app_sep, run_nil. reflexivity.
  - change (String d (t ++ "/")) with (String d t ++ "/").
    rewrite run_app_sep, run_nil. reflexivity.
Qed.

Lemma Clean_idempotent (x : string) : GoPath.Clean (GoPath.Clean x) = GoPath.Clean x.
Proof.
  destruct x as [|c rest]; [reflexivity|].
  pose proof (Clean_Clean_app_sep (String c rest) EmptyString ltac:(discriminate)) as H.
  rewrite !Clean_app_sep_end in H by (apply Clean_nonempty || discriminate).
  exact H.
Qed.

(** X8.  What [Join] returns is a fixed point: put back as the Bucket, or as
    the Key, of a Path with the other field empty, it is returned by [Join]
    as it is, and [ToURI] writes the same URI for it. *)
Theorem Join_fixed_point (p : S3.Path) :
  S3.Join (S3.mkPath (S3.Join p) EmptyString) = S3.Join p /\
  S3.Join (S3.mkPath EmptyString (S3.Join p)) = S3.Join p /\
  S3.ToURI (S3.mkPath (S3.Join p) EmptyString) = S3.ToURI p.
Proof.
  assert (H : S3.Join (S3.mkPath (S3.Join p) EmptyString) = S3.Join p /\
              S3.Join (S3.mkPath EmptyString (S3.Join p)) = S3.Join p).
  { destruct (S3_Join_cases p) as [-> | (x & Hx & ->)]; [split; reflexivity|].
    destruct (Clean_relative_tidy x Hx) as (Hpre & Hsuf & _).
    pose proof (Clean_nonempty x) as Hne.
    assert (HT : GoStrings.Trim (GoPath.Clean x) "/" = GoPath.Clean x)
      by (rewrite Trim_eq, (trimRightByte_id _ Hsuf); apply trimLeftByte_id, Hpre).
    unfold S3.Join. cbn [S3.Bucket S3.Key]. rewrite HT, !Join_pair.
    change (GoStrings.Trim EmptyString "/") with EmptyString.
    destruct (GoPath.Clean x) as [|c cl] eqn:E; [congruence|].
    rewrite Clean_app_sep_end by discriminate.
    rewrite <- E, Clean_idempotent. split; reflexivity. }
  destruct H as [H1 H2]. split; [exact H1|]. split; [exact H2|].
  unfold S3.ToURI. rewrite H1. reflexivity.
Qed.

Lemma Join_triple (k a b : string) :
  GoPath.Join [k; a; b] =
  match k, a, b with
  | EmptyString, EmptyString, EmptyString => EmptyString
  | EmptyString, EmptyString, _ => GoPath.Clean b
  | EmptyString, _, _ => GoPath.Clean (a ++ String "/" b)
  | _, _, _ => GoPath.Clean ((k ++ String "/" a) ++ String "/" b)
  end.
Proof. destruct k, a, b; reflexivity. Qed.

(** X9.  Appending twice is joining the three parts at once: the key after
    [Append] of [a] and then of [b] is [path.Join] of the old key, [a] and
    [b]; in particular a further [Append] of the empty suffix changes
    nothing. *)
Theorem Append_twice (p : S3.Path) (a b : string) :
  S3.Append (S3.Append p a) b
    = S3.mkPath (S3.Bucket p) (GoPath.Join [S3.Key p; a; b]) /\
  S3.Append (S3.Append p a) EmptyString = S3.Append p a.
Proof.
  assert (H : forall k a b,
            GoPath.Join [GoPath.Join [k; a]; b] = GoPath.Join [k; a; b]).
  { clear. intros k a b. rewrite Join_triple, (Join_pair k a).
    destruct k as [|c k].
    - destruct a as [|d a]; [destruct b; reflexivity|].
      rewrite Join_pair.
      pose proof (Clean_nonempty (String d a)) as Hne.
      pose proof (Clean_Clean_app_sep (String d a) b ltac:(discriminate)) as Hc.
      destruct (GoPath.Clean (String d a)); [congruence|].
      rewrite Hc. destruct b; reflexivity.
    - rewrite Join_pair.
      pose proof (Clean_nonempty (String c k ++ String "/" a)) as Hne.
      pose proof (Clean_Clean_app_sep (String c k ++ String "/" a) b
                    ltac:(discriminate)) as Hc.
      destruct (GoPath.Clean (String c k ++ String "/" a)); [congruence|].
      rewrite Hc. destruct a, b; reflexivity. }
  unfold S3.Append. cbn [S3.Bucket S3.Key]. split; [rewrite H; reflexivity|].
  f_equal. rewrite H, Join_triple, Join_pair.
  destruct (S3.Key p) as [|c k].
  - destruct a as [|d a]; [reflexivity|].
    apply (Clean_app_sep_end (String d a)). discriminate.
  - change ((String c k ++ String "/" a) ++ String "/" EmptyString)
      with ((String c k ++ String "/" a) ++ "/").
    rewrite Clean_app_sep_end by discriminate.
    destruct a; reflexivity.
Qed.

(** ** Properties of the client *)

Section ConfigFacts.

Context {credentials : Type}.

Lemma config_of_app (before after : list (Client.ClientOption credentials)) :
  Client.config_of credentials (before ++ after) =
  fold_left (fun config option => option config) after
            (Client.config_of credentials before).
Proof. unfold Client.config_of. apply fold_left_app. Qed.

Lemma keeps_region_fold (after : list (Client.ClientOption credentials)) :
  Forall (Client.keeps_region credentials) after ->
  forall c : Client.Config credentials,
    Client.Region credentials
      (fold_left (fun config option => option config) after c)
    = Client.Region credentials c.
Proof.
  induction 1 as [|o after Ho _ IH]; intros c; [reflexivity|].
  cbn [fold_left]. rewrite IH. apply Ho.
Qed.

(** X10.  The configuration that [NewClient] hands to [session.NewSession]
    has the region [us-west-2] unless an option sets another; of several
    [WithRegion] options the last one decides; the other four options leave
    the region alone. *)
Theorem NewClient_region
    (before after : list (Client.ClientOption credentials)) (region : string) :
  Forall (Client.keeps_region credentials) after ->
  Client.Region credentials
    (Client.config_of credentials (before ++ Client.WithRegion credentials region :: after))
    = Some region /\
  Client.Region credentials (Client.config_of credentials after)
    = Some "us-west-2" /\
  (forall cred ssl endpoint force,
     Forall (Client.keeps_region credentials)
       [Client.WithCredentials credentials cred;
        Client.WithDisableSSL credentials ssl;
        Client.WithEndpoint credentials endpoint;
        Client.WithS3ForcePathStyle credentials force]).
Proof.
  intros Hafter. split; [|split].
  - rewrite config_of_app. cbn [fold_left]. rewrite (keeps_region_fold after Hafter).
    reflexivity.
  - unfold Client.config_of. rewrite (keeps_region_fold after Hafter). reflexivity.
  - intros cred ssl endpoint force. repeat constructor.
Qed.

End ConfigFacts.

Lemma NewClient_region_witness :
  Client.Region unit
    (Client.config_of unit
       [Client.WithRegion unit "eu-west-1"; Client.WithEndpoint unit "http://127.0.0.1:9000";
        Client.WithRegion unit "us-east-1"; Client.WithS3ForcePathStyle unit true])
  = Some "us-east-1".
Proof.
  apply (NewClient_region
           [Client.WithRegion unit "eu-west-1";
            Client.WithEndpoint unit "http://127.0.0.1:9000"]
           [Client.WithS3ForcePathStyle unit true] "us-east-1").
  repeat constructor.
Defined.

(** X11.  For a Path with a non-empty Key, [DeleteRecursive] deletes from
    the listing that [List] and [ListDirectories] ask for: the keys under
    Key followed by one separator.  For the empty Key they differ: the
    listing has the empty prefix, the whole bucket, while [DeleteRecursive]
    uses the prefix [/]. *)
Theorem DeleteRecursive_prefix (p : S3.Path) :
  (S3.Key p <> EmptyString ->
   Client.DeleteRecursive_input p = Client.listBase_input p /\
   Client.Prefix (Client.listBase_input p) = String.append (S3.Key p) "/") /\
  (S3.Key p = EmptyString ->
   Client.Prefix (Client.listBase_input p) = EmptyString /\
   Client.Prefix (Client.DeleteRecursive_input p) = "/").
Proof.
  unfold Client.DeleteRecursive_input, Client.listBase_input.
  destruct (S3.Key p) as [|c k]; cbn [String.eqb Client.Prefix].
  - split; [intros H; congruence | intros _; split; reflexivity].
  - split; [intros _; split; reflexivity | intros H; discriminate].
Qed.

Lemma DeleteRecursive_prefix_witness :
  Client.DeleteRecursive_input (S3.mkPath "some-bucket" "some-dir")
    = Client.mkListInput "some-bucket" "some-dir/" "/" /\
  Client.Prefix (Client.DeleteRecursive_input (S3.mkPath "some-bucket" EmptyString))
    = "/".
Proof.
  split.
  - destruct (proj1 (DeleteRecursive_prefix (S3.mkPath "some-bucket" "some-dir")))
      as [H _]; [discriminate|]. exact H.
  - apply (proj2 (DeleteRecursive_prefix (S3.mkPath "some-bucket" EmptyString))).
    reflexivity.
Defined.

(** ** Merging the tags *)

Lemma named_tags_cons_named k v rest :
  Client.named_tags (Some (Client.mkTag (Some k) (Some v)) :: rest)
  = (k, v) :: Client.named_tags rest.
Proof. reflexivity. Qed.

(** With [overwrite] the map keeps every tag it has and takes the tags of
    the bucket for the other keys. *)
Lemma merge_existing_overwrite (tagSet : list (option Client.Tag)) :
  Forall is_Some tagSet -> forall m : gmap string string,
  Client.merge_existing true (Some m) tagSet
  = Some (Some (m ∪ list_to_map (Client.named_tags tagSet))).
Proof.
  induction 1 as [|t rest Ht _ IH]; intros m.
  - cbn. rewrite (right_id_L ∅ (∪)). reflexivity.
  - destruct Ht as [[[k|] [v|]] ->]; cbn [Client.merge_existing Client.Key
      Client.Value Client.named_tags]; try apply IH.
    unfold Client.has_key. rewrite andb_true_r.
    rewrite list_to_map_cons.
    case_bool_decide as Hk.
    + rewrite IH. do 2 f_equal. apply map_eq. intros i.
      rewrite !lookup_union. destruct Hk as [x Hx].
      destruct (decide (k = i)) as [<-|Hne].
      * rewrite Hx, lookup_insert_eq. destruct (list_to_map _ !! k); reflexivity.
      * rewrite lookup_insert_ne by done. reflexivity.
    + rewrite IH. do 2 f_equal. apply map_eq. intros i.
      rewrite !lookup_union. apply eq_None_not_Some in Hk.
      destruct (decide (k = i)) as [<-|Hne].
      * rewrite Hk, !lookup_insert_eq.
        destruct (list_to_map _ !! k); reflexivity.
      * rewrite !lookup_insert_ne by done. reflexivity.
Qed.

(** Without [overwrite] the tags of the bucket go over the tags of the
    map, a later tag of the bucket over an earlier one. *)
Lemma merge_existing_keep (tagSet : list (option Client.Tag)) :
  Forall is_Some tagSet -> forall m : gmap string string,
  Client.merge_existing false (Some m) tagSet
  = Some (Some (list_to_map (reverse (Client.named_tags tagSet)) ∪ m)).
Proof.
  induction 1 as [|t rest Ht _ IH]; intros m.
  - cbn. rewrite (left_id_L ∅ (∪)). reflexivity.
  - destruct Ht as [[[k|] [v|]] ->]; cbn [Client.merge_existing Client.Key
      Client.Value Client.named_tags]; try apply IH.
    rewrite andb_false_r, IH. do 2 f_equal.
    rewrite reverse_cons, list_to_map_app. cbn [list_to_map foldr].
    rewrite <- (assoc_L (∪)). f_equal.
    rewrite insert_empty, <- insert_union_singleton_l. reflexivity.
Qed.

Lemma merge_existing_nil_map overwrite (tagSet : list (option Client.Tag)) :
  Forall is_Some tagSet ->
  Client.merge_existing overwrite None tagSet
  = match Client.named_tags tagSet with
    | [] => Some None
    | _ => None
    end.
Proof.
  induction 1 as [|t rest Ht _ IH]; [reflexivity|].
  destruct Ht as [[[k|] [v|]] ->]; cbn [Client.merge_existing Client.Key
    Client.Value Client.named_tags Client.has_key andb]; try apply IH.
  reflexivity.
Qed.

Section AddBucketTagFacts.

Variable GetBucketTagging : string -> Client.sdk_error + list (option Client.Tag).
Variable PutBucketTagging : string -> gmap string string -> option Client.sdk_error.

(** X12.  [AddBucketTag] with [overwrite]: the tags passed in go over the
    tags of the bucket.  The tag set sent is the passed map extended by the
    tags of the bucket for the keys the map does not have (for a key that
    the bucket's tag set names twice, by the first of them); the caller's
    map is left holding that tag set; the error is that of
    [PutBucketTagging]. *)
Theorem AddBucketTag_overwrite (bucketName : string) (m : gmap string string)
    (tagSet : list (option Client.Tag)) :
  GetBucketTagging bucketName = inr tagSet -> Forall is_Some tagSet ->
  Client.AddBucketTag GetBucketTagging PutBucketTagging bucketName (Some m) true
  = Client.Returns
      (PutBucketTagging bucketName (m ∪ list_to_map (Client.named_tags tagSet)))
      (Some (m ∪ list_to_map (Client.named_tags tagSet)))
      (Some (m ∪ list_to_map (Client.named_tags tagSet))) /\
  (forall k v, m !! k = Some v ->
     (m ∪ list_to_map (Client.named_tags tagSet)) !! k = Some v) /\
  (forall k, m !! k = None ->
     (m ∪ list_to_map (Client.named_tags tagSet)) !! k
     = (list_to_map (Client.named_tags tagSet) : gmap string string) !! k).
Proof.
  intros Hget Hts. split; [|split].
  - unfold Client.AddBucketTag. rewrite Hget, (merge_existing_overwrite _ Hts).
    reflexivity.
  - intros k v Hk. apply lookup_union_Some_l, Hk.
  - intros k Hk. apply lookup_union_r, Hk.
Qed.

(** X13.  [AddBucketTag] without [overwrite]: the tags of the bucket go
    over the tags passed in.  The tag set sent holds every tag of the bucket
    that has a key and a value (of two with the same key the later one), and
    the passed tags for the other keys only. *)
Theorem AddBucketTag_keep (bucketName : string) (m : gmap string string)
    (tagSet : list (option Client.Tag)) :
  GetBucketTagging bucketName = inr tagSet -> Forall is_Some tagSet ->
  Client.AddBucketTag GetBucketTagging PutBucketTagging bucketName (Some m) false
  = Client.Returns
      (PutBucketTagging bucketName
         (list_to_map (reverse (Client.named_tags tagSet)) ∪ m))
      (Some (list_to_map (reverse (Client.named_tags tagSet)) ∪ m))
      (Some (list_to_map (reverse (Client.named_tags tagSet)) ∪ m)) /\
  (forall k v, NoDup (Client.named_tags tagSet).*1 ->
     (k, v) ∈ Client.named_tags tagSet ->
     (list_to_map (reverse (Client.named_tags tagSet)) ∪ m) !! k = Some v) /\
  (forall k, k ∉ (Client.named_tags tagSet).*1 ->
     (list_to_map (reverse (Client.named_tags tagSet)) ∪ m) !! k = m !! k).
Proof.
  intros Hget Hts. split; [|split].
  - unfold Client.AddBucketTag. rewrite Hget, (merge_existing_keep _ Hts).
    reflexivity.
  - intros k v Hnd Hin. apply lookup_union_Some_l.
    apply elem_of_list_to_map_1.
    + rewrite fmap_reverse, reverse_Permutation. apply NoDup_ListNoDup, Hnd.
    + apply elem_of_reverse, Hin.
  - intros k Hk. apply lookup_union_r, not_elem_of_list_to_map_1.
    rewrite fmap_reverse, elem_of_reverse. exact Hk.
Qed.

(** X14.  Errors of [GetBucketTagging]: the code [NoSuchTagSet] is read as
    a bucket without tags, so the call goes on as after an empty tag set;
    every other error is returned as it is, nothing is sent and the map is
    not touched. *)
Theorem AddBucketTag_get_error (bucketName : string)
    (tags : option (gmap string string)) (overwrite : bool)
    (err : Client.sdk_error) :
  GetBucketTagging bucketName = inl err ->
  (forall message, err = Client.AwsError "NoSuchTagSet" message ->
     Client.AddBucketTag GetBucketTagging PutBucketTagging bucketName tags overwrite
     = Client.AddBucketTag (fun _ => inr []) PutBucketTagging bucketName tags overwrite /\
     Client.AddBucketTag GetBucketTagging PutBucketTagging bucketName tags overwrite
     = Client.Returns (PutBucketTagging bucketName (default ∅ tags)) tags
                      (Some (default ∅ tags))) /\
  ((forall message, err <> Client.AwsError "NoSuchTagSet" message) ->
     Client.AddBucketTag GetBucketTagging PutBucketTagging bucketName tags overwrite
     = Client.Returns (Some err) tags None).
Proof.
  intros Hget. unfold Client.AddBucketTag. rewrite Hget. split.
  - intros message ->. split; reflexivity.
  - intros Hne. destruct err as [code message|message]; [|reflexivity].
    destruct (String.eqb_spec code "NoSuchTagSet") as [->|]; [|reflexivity].
    destruct (Hne message). reflexivity.
Qed.

(** X15.  [AddBucketTag] on a [nil] map: when the bucket has a tag with a
    key and a value the call panics (an assignment to an entry of a [nil]
    map), with and without [overwrite]; when it has none, an empty tag set
    is sent. *)
Theorem AddBucketTag_nil_map (bucketName : string) (overwrite : bool)
    (tagSet : list (option Client.Tag)) :
  GetBucketTagging bucketName = inr tagSet -> Forall is_Some tagSet ->
  (Client.named_tags tagSet <> [] ->
   Client.AddBucketTag GetBucketTagging PutBucketTagging bucketName None overwrite
   = Client.Panics) /\
  (Client.named_tags tagSet = [] ->
   Client.AddBucketTag GetBucketTagging PutBucketTagging bucketName None overwrite
   = Client.Returns (PutBucketTagging bucketName ∅) None (Some ∅)).
Proof.
  intros Hget Hts. unfold Client.AddBucketTag.
  rewrite Hget, (merge_existing_nil_map overwrite _ Hts).
  destruct (Client.named_tags tagSet) as [|kv kvs]; split; intros H.
  - destruct H. reflexivity.
  - reflexivity.
  - reflexivity.
  - discriminate H.
Qed.

(** X16.  Whatever [overwrite] is, [AddBucketTag] on a map sends a tag set
    whose keys are the keys of the map and the keys of the bucket's tags
    that have a key and a value, and each tag sent comes from the map or
    from the bucket: no tag is dropped and none is made up. *)
Theorem AddBucketTag_keys (bucketName : string) (m : gmap string string)
    (overwrite : bool) (tagSet : list (option Client.Tag)) :
  GetBucketTagging bucketName = inr tagSet -> Forall is_Some tagSet ->
  exists m' : gmap string string,
    Client.AddBucketTag GetBucketTagging PutBucketTagging bucketName (Some m) overwrite
    = Client.Returns (PutBucketTagging bucketName m') (Some m') (Some m') /\
    dom m' = dom m ∪ list_to_set (Client.named_tags tagSet).*1 /\
    (forall k v, m' !! k = Some v ->
       m !! k = Some v \/ (k, v) ∈ Client.named_tags tagSet).
Proof.
  intros Hget Hts. unfold Client.AddBucketTag. rewrite Hget.
  destruct overwrite.
  - rewrite (merge_existing_overwrite _ Hts).
    exists (m ∪ list_to_map (Client.named_tags tagSet)).
    split; [reflexivity|]. split.
    + rewrite dom_union_L, dom_list_to_map_L. reflexivity.
    + intros k v Hk. apply lookup_union_Some_raw in Hk as [Hk | [_ Hk]];
        [left; exact Hk | right; apply elem_of_list_to_map_2, Hk].
  - rewrite (merge_existing_keep _ Hts).
    exists (list_to_map (reverse (Client.named_tags tagSet)) ∪ m).
    split; [reflexivity|]. split.
    + rewrite dom_union_L, dom_list_to_map_L, fmap_reverse.
      rewrite (comm_L (∪)). f_equal.
      apply set_eq. intros x. rewrite !elem_of_list_to_set, elem_of_reverse.
      reflexivity.
    + intros k v Hk. apply lookup_union_Some_raw in Hk as [Hk | [_ Hk]];
        [right | left; exact Hk].
      apply elem_of_list_to_map_2 in Hk. apply elem_of_reverse, Hk.
Qed.

End AddBucketTagFacts.

Lemma AddBucketTag_overwrite_witness :
  Client.AddBucketTag
    (fun _ => inr [Some (Client.mkTag (Some "env") (Some "prod"));
                   Some (Client.mkTag (Some "team") None);
                   Some (Client.mkTag (Some "owner") (Some "ops"))])
    (fun _ _ => None) "some-bucket" (Some {["env" := "test"]}) true
  = Client.Returns None
      (Some ({["env" := "test"]} ∪ list_to_map [("env", "prod"); ("owner", "ops")]))
      (Some ({["env" := "test"]} ∪ list_to_map [("env", "prod"); ("owner", "ops")])).
Proof.
  refine (proj1 (AddBucketTag_overwrite _ (fun _ _ => None) "some-bucket"
                   {["env" := "test"]} _ eq_refl _)).
  repeat constructor; eexists; reflexivity.
Defined.

Lemma AddBucketTag_keep_witness :
  Client.AddBucketTag
    (fun _ => inr [Some (Client.mkTag (Some "env") (Some "prod"));
                   Some (Client.mkTag (Some "owner") (Some "ops"))])
    (fun _ _ => None) "some-bucket" (Some {["env" := "test"]}) false
  = Client.Returns None
      (Some (list_to_map (reverse [("env", "prod"); ("owner", "ops")])
             ∪ {["env" := "test"]}))
      (Some (list_to_map (reverse [("env", "prod"); ("owner", "ops")])
             ∪ {["env" := "test"]})).
Proof.
  refine (proj1 (AddBucketTag_keep _ (fun _ _ => None) "some-bucket"
                   {["env" := "test"]} _ eq_refl _)).
  repeat constructor; eexists; reflexivity.
Defined.

Lemma AddBucketTag_get_error_witness :
  Client.AddBucketTag (fun _ => inl (Client.OtherError "timeout"))
    (fun _ _ => None) "some-bucket" (Some {["env" := "test"]}) true
  = Client.Returns (Some (Client.OtherError "timeout"))
                   (Some {["env" := "test"]}) None.
Proof.
  refine (proj2 (AddBucketTag_get_error _ (fun _ _ => None) "some-bucket" _ true
                   (Client.OtherError "timeout") eq_refl) _).
  intros message. discriminate.
Defined.

Lemma AddBucketTag_nil_map_witness :
  Client.AddBucketTag
    (fun _ => inr [Some (Client.mkTag (Some "env") (Some "prod"))])
    (fun _ _ => None) "some-bucket" None false
  = Client.Panics.
Proof.
  refine (proj1 (AddBucketTag_nil_map _ (fun _ _ => None) "some-bucket" false _
                   eq_refl _) _).
  - repeat constructor; eexists; reflexivity.
  - discriminate.
Defined.

Lemma AddBucketTag_keys_witness :
  exists m' : gmap string string,
    Client.AddBucketTag
      (fun _ => inr [Some (Client.mkTag (Some "env") (Some "prod"))])
      (fun _ _ => None) "some-bucket" (Some {["team" := "a"]}) false
    = Client.Returns None (Some m') (Some m') /\
    dom m' = dom ({["team" := "a"]} : gmap string string)
             ∪ list_to_set [("env", "prod")].*1.
Proof.
  destruct (AddBucketTag_keys
              (fun _ => inr [Some (Client.mkTag (Some "env") (Some "prod"))])
              (fun _ _ => None) "some-bucket" {["team" := "a"]} false _ eq_refl)
    as (m' & H1 & H2 & _).
  - repeat constructor; eexists; reflexivity.
  - exists m'. split; [exact H1 | exact H2].
Defined.
